(** * tasuki2sgf: a shallow embedding of [tasuki2sgf.py] and its properties

    The Python program turns the gooe board diagrams of tasuki's tsumego
    collections into SGF records.  This development embeds the board
    model ([SimpleSGF]), the diagram parser ([tex2sgf]), the batch
    extractor ([extract_sgf]) and the collection merger ([merge_sgfs]) as
    Rocq functions and proves what the code does.

    Conventions.
    - A Python [str] is a list of Unicode code points, each a [Z];
      [py "..."] turns a literal into such a list, [nl] is the newline.
    - A Python [set] is a [gset]; the order in which Python iterates over
      a set is not fixed by the language, so the serializer takes the
      iteration order as a parameter.
    - An exception is a value of [exn]; a call that may raise returns a
      [result]. *)

From Stdlib Require Import ZArith Ascii String DecimalString.
From stdpp Require Import base decidable option list sorting gmap.

Local Open Scope Z_scope.

Abbreviation str := (list Z).

(** ** Python strings *)

Definition ord_ascii (a : ascii) : Z := Z.of_N (N_of_ascii a).

Fixpoint py (s : string) : str :=
  match s with
  | EmptyString => []
  | String a s' => ord_ascii a :: py s'
  end.

Definition nl : Z := 10.

(** [s.startswith(p)] *)
Fixpoint startswith (p s : str) : bool :=
  match p, s with
  | [], _ => true
  | _ :: _, [] => false
  | a :: p', b :: s' => bool_decide (a = b) && startswith p' s'
  end.

(** [p in s] for two strings: [p] occurs in [s] as a substring. *)
Fixpoint contains (p s : str) : bool :=
  startswith p s ||
  match s with
  | [] => false
  | _ :: s' => contains p s'
  end.

(** [s.endswith(p)] *)
Definition endswith (p s : str) : bool := startswith (rev p) (rev s).

(** [s.replace(old, new)] for a non-empty [old]: the occurrences of [old]
    are replaced from left to right and do not overlap.  [skip] counts
    the characters of a matched occurrence that are still to be passed. *)
Fixpoint replace_from (old new : str) (skip : nat) (s : str) : str :=
  match s with
  | [] => []
  | c :: s' =>
      match skip with
      | S k => replace_from old new k s'
      | O =>
          if startswith old s
          then new ++ replace_from old new (Nat.pred (length old)) s'
          else c :: replace_from old new O s'
      end
  end.

Definition replace (old new s : str) : str := replace_from old new O s.

(** [s.split(sep)] for a one-character separator. *)
Fixpoint split (sep : Z) (s : str) : list str :=
  match s with
  | [] => [[]]
  | c :: s' =>
      if bool_decide (c = sep) then [] :: split sep s'
      else match split sep s' with
           | l :: ls => (c :: l) :: ls
           | [] => [[c]]
           end
  end.

(** ["".join(parts)] *)
Definition join (parts : list str) : str := concat parts.

(** [s.upper()] on the ASCII letters; other code points are kept. *)
Definition upper_char (c : Z) : Z :=
  if bool_decide (97 <= c <= 122) then c - 32 else c.

Definition upper (s : str) : str := map upper_char s.

(** [c.isspace()] for one code point: the Unicode white space. *)
Definition isspace (c : Z) : bool :=
  bool_decide (9 <= c <= 13) || bool_decide (28 <= c <= 32)
  || bool_decide (c = 133) || bool_decide (c = 160)
  || bool_decide (c = 5760) || bool_decide (8192 <= c <= 8202)
  || bool_decide (c = 8232) || bool_decide (c = 8233)
  || bool_decide (c = 8239) || bool_decide (c = 8287)
  || bool_decide (c = 12288).

Fixpoint lstrip (s : str) : str :=
  match s with
  | [] => []
  | c :: s' => if isspace c then lstrip s' else s
  end.

Definition rstrip (s : str) : str := rev (lstrip (rev s)).

(** [s.strip()] *)
Definition strip (s : str) : str := rstrip (lstrip s).

(** [str(n)] for an integer. *)
Definition str_of_int (n : Z) : str := py (NilZero.string_of_int (Z.to_int n)).

(** ** Exceptions *)

Inductive exn : Type :=
  | AssertionError
  | ValueError
  | AttributeError
  | UnicodeEncodeError
  | OverflowError
  | OSError.

Inductive result (A : Type) : Type :=
  | Ok (a : A)
  | Raise (e : exn).

Arguments Ok {A} a.
Arguments Raise {A} e.

#[global] Instance result_ret : MRet result := fun A a => Ok a.

#[global] Instance result_bind : MBind result := fun A B f m =>
  match m with
  | Ok a => f a
  | Raise e => Raise e
  end.

(** [[f(x) for x in xs]] where [f] may raise: the first exception wins. *)
Fixpoint for_each {A B : Type} (f : A -> result B) (xs : list A)
  : result (list B) :=
  match xs with
  | [] => Ok []
  | x :: xs' => y ← f x; ys ← for_each f xs'; mret (y :: ys)
  end.

(** [chr(i)]: defined on the code points [0 .. 0x10FFFF].  The argument
    is first converted to a C [int], which raises [OverflowError] when it
    does not fit in 32 bits; an [int] outside the code points raises
    [ValueError]. *)
Definition chr (i : Z) : result Z :=
  if bool_decide (-2147483648 <= i <= 2147483647) then
    if bool_decide (0 <= i < 1114112) then Ok i else Raise ValueError
  else Raise OverflowError.

(** [ord(c)] *)
Definition ord (c : Z) : Z := c.

(** [s.encode("utf-8")]: a list of bytes; surrogates cannot be encoded. *)
Definition encode_char (c : Z) : result (list Z) :=
  if bool_decide (c < 128) then Ok [c]
  else if bool_decide (c < 2048) then
    Ok [Z.lor 192 (Z.shiftr c 6); Z.lor 128 (Z.land c 63)]
  else if bool_decide (55296 <= c <= 57343) then Raise UnicodeEncodeError
  else if bool_decide (c < 65536) then
    Ok [Z.lor 224 (Z.shiftr c 12);
        Z.lor 128 (Z.land (Z.shiftr c 6) 63);
        Z.lor 128 (Z.land c 63)]
  else
    Ok [Z.lor 240 (Z.shiftr c 18);
        Z.lor 128 (Z.land (Z.shiftr c 12) 63);
        Z.lor 128 (Z.land (Z.shiftr c 6) 63);
        Z.lor 128 (Z.land c 63)].

Definition encode_utf8 (s : str) : result (list Z) :=
  units ← for_each encode_char s; mret (concat units).

(** ** The order of iteration over a set

    The order in which [for x in s] visits a set depends on how the set
    was built, not only on its elements: two equal sets may be visited
    differently.  A serialization therefore takes one order for each of
    the three sets of the board it prints. *)
Record orders : Type := Orders {
  iter_black : gset (Z * Z) -> list (Z * Z);
  iter_white : gset (Z * Z) -> list (Z * Z);
  iter_marks : gset (str * Z * Z) -> list (str * Z * Z)
}.

(** ** The board model: [class SimpleSGF] *)

Module SimpleSGF.

Record t : Type := Build {
  size : Z;
  setup_black : gset (Z * Z);
  setup_white : gset (Z * Z);
  marks : gset (str * Z * Z);
  comment : option str;
  player : str
}.

(** [SimpleSGF(size)] *)
Definition init (size : Z) : t :=
  {| size := size; setup_black := ∅; setup_white := ∅; marks := ∅;
     comment := None; player := py "B" |}.

Definition coord2letter (self : t) (row col : Z) : result str :=
  c ← chr (col + 97);
  r ← chr (size self - row - 1 + 97);
  mret [c; r].

Definition set_setup_stones (self : t) (black white : list (Z * Z)) : t :=
  {| size := size self;
     setup_black := list_to_set black;
     setup_white := list_to_set white;
     marks := marks self; comment := comment self; player := player self |}.

Definition add_label (self : t) (label : str) (row col : Z) : t :=
  {| size := size self;
     setup_black := setup_black self; setup_white := setup_white self;
     marks := marks self ∪ {[ (label, row, col) ]};
     comment := comment self; player := player self |}.

Definition set_comment (self : t) (comment : str) : t :=
  {| size := size self;
     setup_black := setup_black self; setup_white := setup_white self;
     marks := marks self; comment := Some comment; player := player self |}.

Definition with_player (self : t) (p : str) : t :=
  {| size := size self;
     setup_black := setup_black self; setup_white := setup_white self;
     marks := marks self; comment := comment self; player := p |}.

(** [assert player.upper() in "BW"] is a substring test on two strings. *)
Definition set_player (self : t) (player : str) : result t :=
  if contains (upper player) (py "BW")
  then Ok (with_player self (upper player))
  else Raise AssertionError.

(** The second [if] of the source ends in [self.player == "B"], a
    comparison whose value is dropped: the state is left as it is. *)
Definition flip_colors (self : t) : t :=
  let self :=
    {| size := size self;
       setup_black := setup_white self; setup_white := setup_black self;
       marks := marks self; comment := comment self; player := player self |} in
  let self :=
    if bool_decide (player self = py "B") then with_player self (py "W")
    else self in
  let self :=
    if bool_decide (player self = py "W")
    then (let _ := bool_decide (player self = py "B") in self)
    else self in
  self.

Section Serialize.

(** The orders in which the three sets of [self] are visited. *)
Variable o : orders.

Definition point_item (self : t) (x : Z * Z) : result str :=
  l ← coord2letter self x.1 x.2; mret (py "[" ++ l ++ py "]").

Definition mark_item (self : t) (x : str * Z * Z) : result str :=
  l ← coord2letter self x.1.2 x.2;
  mret (py "[" ++ l ++ py ":" ++ x.1.1 ++ py "]").

(** The text built in [buffer], before it is encoded. *)
Definition serialize_text (self : t) : result str :=
  let buffer := py ";FF[4]GM[1]" in
  let buffer := buffer ++ py "SZ[" ++ str_of_int (size self) ++ py "]" in
  let buffer :=
    match comment self with
    | Some ((_ :: _) as c) => buffer ++ [nl] ++ py "C[" ++ c ++ py "]"
    | _ => buffer
    end in
  let buffer :=
    match player self with
    | (_ :: _) as p => buffer ++ [nl] ++ py "PL[" ++ p ++ py "]"
    | [] => buffer
    end in
  buffer ←
    (if bool_decide (setup_black self = ∅) then Ok buffer
     else items ← for_each (point_item self) (iter_black o (setup_black self));
          mret (buffer ++ [nl] ++ py "AB" ++ join items));
  buffer ←
    (if bool_decide (setup_white self = ∅) then Ok buffer
     else items ← for_each (point_item self) (iter_white o (setup_white self));
          mret (buffer ++ [nl] ++ py "AW" ++ join items));
  buffer ←
    (if bool_decide (marks self = ∅) then Ok buffer
     else items ← for_each (mark_item self) (iter_marks o (marks self));
          mret (buffer ++ [nl] ++ py "LB" ++ join items));
  let buffer := buffer ++ [nl] ++ py "CA[UTF-8]" in
  mret (py "(" ++ buffer ++ py ")" ++ [nl]).

Definition serialize (self : t) : result (list Z) :=
  buffer ← serialize_text self; encode_utf8 buffer.

End Serialize.

End SimpleSGF.

(** ** The diagram parser: [tex2sgf] *)

(** The two keys of the [setup] dictionary and the values of [mapping]. *)
Inductive color : Type := black | white.

(** [mapping = {"@": "black", "!": "white"}] *)
Definition mapping (symbol : Z) : option color :=
  if bool_decide (symbol = 64) then Some black
  else if bool_decide (symbol = 33) then Some white
  else None.

(** What the two loops of [tex2sgf] carry: the board under construction,
    the two lists of [setup] and the column counter. *)
Record walk : Type := Walk {
  game : SimpleSGF.t;
  setup_of_black : list (Z * Z);
  setup_of_white : list (Z * Z);
  col_num : Z
}.

Definition setup_append (st : walk) (c : color) (x : Z * Z) : walk :=
  match c with
  | black =>
      {| game := game st; setup_of_black := setup_of_black st ++ [x];
         setup_of_white := setup_of_white st; col_num := col_num st |}
  | white =>
      {| game := game st; setup_of_black := setup_of_black st;
         setup_of_white := setup_of_white st ++ [x]; col_num := col_num st |}
  end.

(** The body of [for symbol in row].  Both tests are substring tests of
    the one-character string [symbol] in a literal. *)
Definition walk_symbol (row_num : Z) (st : walk) (symbol : Z) : walk :=
  let st :=
    if contains [symbol] (py "A-Z")
    then {| game := SimpleSGF.add_label (game st) [symbol]
                      (SimpleSGF.size (game st) - 1 - row_num) (col_num st);
            setup_of_black := setup_of_black st;
            setup_of_white := setup_of_white st; col_num := col_num st |}
    else st in
  if contains [symbol] (py "@!")
  then match mapping symbol with
       | Some c =>
           setup_append st c
             (SimpleSGF.size (game st) - 1 - row_num, col_num st)
       | None => st
       end
  else {| game := game st; setup_of_black := setup_of_black st;
          setup_of_white := setup_of_white st; col_num := col_num st + 1 |}.

(** The body of [for row_num, row in enumerate(lines)]. *)
Definition walk_row (row_num : Z) (st : walk) (row : str) : walk :=
  let st := {| game := game st; setup_of_black := setup_of_black st;
               setup_of_white := setup_of_white st; col_num := 0 |} in
  fold_left (walk_symbol row_num) row st.

Fixpoint walk_rows (row_num : Z) (st : walk) (lines : list str) : walk :=
  match lines with
  | [] => st
  | row :: lines' => walk_rows (row_num + 1) (walk_row row_num st row) lines'
  end.

(** The lines of the diagram once the three escape sequences are gone. *)
Definition clean_lines (tex : str) : list str :=
  split nl
    (replace (py "\!  ") []
       (replace (py "\- ") [] (replace (py "\0??") [] tex))).

Definition tex2sgf (tex : str) : SimpleSGF.t :=
  let lines := clean_lines tex in
  let st := {| game := SimpleSGF.init 19; setup_of_black := [];
               setup_of_white := []; col_num := 0 |} in
  let st := walk_rows 0 st lines in
  SimpleSGF.set_setup_stones (game st) (setup_of_black st) (setup_of_white st).

(** The column counter at the end of one line: the number of board
    points the line accounts for. *)
Definition row_points (row : str) : Z :=
  col_num (walk_row 0 {| game := SimpleSGF.init 19; setup_of_black := [];
                         setup_of_white := []; col_num := 0 |} row).

(** ** Effects of the batch functions

    A path is kept as the pair of the directory and the name joined to it
    by [/].  What a run does to the outside world is the list of its
    events, in order.  Opening a file for writing may fail; a failure to
    create the temporary file or to start an external program is not
    modelled. *)

Definition path : Type := str * str.

Inductive arg : Type :=
  | Arg (s : str)
  | ArgPath (p : path)
  | ArgTemp (data : list Z).   (* the temporary file holding [data] *)

Inductive event : Type :=
  | Open (p : path)                  (* [open(p, "wb")]: created or emptied *)
  | Write (p : path) (data : list Z) (* [f.write(data)] *)
  | Call (cmd : list arg).           (* [subprocess.call(cmd)] *)

(** A computation that has emitted events and then returned or raised. *)
Definition io (A : Type) : Type := list event * result A.

#[global] Instance io_ret : MRet io := fun A a => ([], Ok a).

#[global] Instance io_bind : MBind io := fun A B f m =>
  match m.2 with
  | Ok a => (m.1 ++ (f a).1, (f a).2)
  | Raise e => (m.1, Raise e)
  end.

Definition emit (e : event) : io unit := ([e], Ok tt).

Definition lift {A : Type} (r : result A) : io A := ([], r).

(** The public methods of [str]; looking up any other name on a string
    raises [AttributeError]. *)
Definition str_methods : list string :=
  ["capitalize"; "casefold"; "center"; "count"; "encode"; "endswith";
   "expandtabs"; "find"; "format"; "format_map"; "index"; "isalnum";
   "isalpha"; "isascii"; "isdecimal"; "isdigit"; "isidentifier";
   "islower"; "isnumeric"; "isprintable"; "isspace"; "istitle";
   "isupper"; "join"; "ljust"; "lower"; "lstrip"; "maketrans";
   "partition"; "removeprefix"; "removesuffix"; "replace"; "rfind";
   "rindex"; "rjust"; "rpartition"; "rsplit"; "rstrip"; "split";
   "splitlines"; "startswith"; "strip"; "swapcase"; "title";
   "translate"; "upper"; "zfill"]%string.

(** [s.attr(...)]: the attribute is looked up first, then called. *)
Definition call_method {A : Type} (attr : string) (call : A) : result A :=
  if existsb (String.eqb attr) str_methods then Ok call
  else Raise AttributeError.

(** ** The renderer adapter: [render_sgf] *)

Inductive ShrinkWrapOption : Type := NO | YES | ROW_ONLY.

(** [min(moves, key=lambda x: x[0])[0]]: the least row among the stones;
    [min] of an empty set raises [ValueError]. *)
Definition min_row_of (moves : gset (Z * Z)) : result Z :=
  match elements moves with
  | [] => Raise ValueError
  | x :: xs => Ok (foldr (fun y m => Z.min y.1 m) x.1 xs)
  end.

Section Renderer.

(** The orders in which the sets of [game] are visited. *)
Variable o : orders.
(** [shutil.which("svgcleaner")] finds the minifier. *)
Variable has_svgcleaner : bool.

Definition render_sgf (game : SimpleSGF.t) (output_filename : path)
    (shrink_wrap : ShrinkWrapOption) : io unit :=
  data ← lift (SimpleSGF.serialize o game);
  let cmd := [Arg (py "sgf-render"); ArgTemp data; Arg (py "--style");
              Arg (py "minimalist"); Arg (py "--no-board-labels");
              Arg (py "-o"); ArgPath output_filename] in
  cmd ← lift
    match shrink_wrap with
    | NO => Ok cmd
    | YES => Ok (cmd ++ [Arg (py "-s")])
    | ROW_ONLY =>
        let moves := SimpleSGF.setup_black game ∪ SimpleSGF.setup_white game in
        min_row ← min_row_of moves;
        c ← chr (SimpleSGF.size game - min_row + 97);
        let vw := py "aa-s" ++ [Z.min c 115] in
        mret (cmd ++ [Arg (py "-r"); Arg vw])
    end;
  _ ← emit (Call cmd);
  if has_svgcleaner
  then emit (Call [Arg (py "svgcleaner"); Arg (py "--quiet");
                   ArgPath output_filename; ArgPath output_filename])
  else mret tt.

End Renderer.

(** ** The batch extractor: [extract_sgf] *)

(** A file name template, as [str.format] reads it: literal text and the
    two fields the extractor fills in. *)
Inductive piece : Type :=
  | Lit (s : str)
  | Field_name
  | Field_problem_num.

Definition format (template : list piece) (problem_num : Z) (name : str)
  : str :=
  concat (map (fun p => match p with
                        | Lit s => s
                        | Field_name => name
                        | Field_problem_num => str_of_int problem_num
                        end) template).

(** ["{name} - (problem {problem_num})"], the default of [filename]. *)
Definition default_filename : list piece :=
  [Field_name; Lit (py " - (problem "); Field_problem_num; Lit (py ")")].

Section Extractor.

(** The orders in which the sets of the board of problem [i] are
    visited. *)
Variable orders_of : Z -> orders.
(** What the file system answers when problem [i] opens a path for
    writing: nothing when the file can be opened, the [OSError]
    otherwise (a directory that does not exist, a permission...). *)
Variable open_error : Z -> path -> option exn.
Variable has_svgcleaner : bool.
Variable sgf_output_dir : str.
Variable render_output_dir : option str.
Variable filename : list piece.
Variable normalize : bool.

(** [open(p, "wb")]: a path that holds a NUL character is refused with
    [ValueError] before the file system is asked. *)
Definition open_wb (i : Z) (p : path) : io unit :=
  if bool_decide (0 ∈ p.1 ++ p.2) then lift (Raise ValueError)
  else match open_error i p with
       | Some e => lift (Raise e)
       | None => emit (Open p)
       end.

(** The body of the loop over the problems; [i] is the index given by
    [enumerate], [board] and [title] are the two [group(1)] captures. *)
Definition extract_problem (i : Z) (board title : str) : io unit :=
  let name := strip title in
  let game := tex2sgf board in
  '(name, game) ← lift
    (if contains (py "white to play") name then
       game ← SimpleSGF.set_player game (py "W");
       if normalize then
         let name :=
           replace (py "!!temp") (py "white")
             (replace (py "white") (py "black")
                (replace (py "black") (py "!!temp") name)) in
         ends ← call_method "endwith" (endswith (py "black to play") name);
         let _ := if ends : bool
                  then replace (py ", black to play") [] name else name in
         mret (name, SimpleSGF.flip_colors game)
       else mret (name, game)
     else mret (name, game));
  let game := SimpleSGF.set_comment game name in
  let sgf_filename :=
    (sgf_output_dir, format filename (i + 1) name ++ py ".sgf") in
  _ ← open_wb i sgf_filename;
  data ← lift (SimpleSGF.serialize (orders_of i) game);
  _ ← emit (Write sgf_filename data);
  match render_output_dir with
  | Some dir =>
      let svg_filename := (dir, format filename (i + 1) name ++ py ".svg") in
      render_sgf (orders_of i) has_svgcleaner game svg_filename ROW_ONLY
  | None => mret tt
  end.

Fixpoint extract_loop (i : Z) (pairs : list (str * str)) : io unit :=
  match pairs with
  | [] => mret tt
  | (board, title) :: pairs' =>
      _ ← extract_problem i board title; extract_loop (i + 1) pairs'
  end.

(** [boards] and [titles] are what the two [re.finditer] scans capture,
    in the order of the document; [zip] pairs them. *)
Definition extract_sgf (boards titles : list str) : io unit :=
  extract_loop 0 (zip boards titles).

End Extractor.

(** ** The collection merger: [merge_sgfs] *)

(** [name.rfind(c)], with [i] the index of the head of [s]. *)
Fixpoint rfind_from (c : Z) (i : Z) (s : str) : Z :=
  match s with
  | [] => -1
  | x :: s' =>
      let r := rfind_from c (i + 1) s' in
      if bool_decide (r = -1)
      then (if bool_decide (x = c) then i else -1)
      else r
  end.

(** [PurePath.stem] of a file name: the name up to its last dot, unless
    that dot is the first or the last character. *)
Definition stem (name : str) : str :=
  let i := rfind_from 46 0 name in
  if bool_decide (0 < i < Z.of_nat (length name) - 1)
  then take (Z.to_nat i) name
  else name.

(** [a < b] on two lists of integers: the lexicographic order. *)
Fixpoint list_lt (a b : list Z) : bool :=
  match a, b with
  | _, [] => false
  | [], _ :: _ => true
  | x :: a', y :: b' =>
      if bool_decide (x = y) then list_lt a' b' else bool_decide (x < y)
  end.

Section Sorted.

Context {A : Type}.
Variable key : A -> list Z.

(** [sorted(xs, key=key)] is stable: [x], met after the elements of [acc],
    goes behind those whose key is not greater. *)
Fixpoint insort (x : A) (acc : list A) : list A :=
  match acc with
  | [] => [x]
  | y :: acc' =>
      if list_lt (key x) (key y) then x :: y :: acc'
      else y :: insort x acc'
  end.

Definition sorted (xs : list A) : list A :=
  fold_left (fun acc x => insort x acc) xs [].

End Sorted.

(** [Path(sgf_dir).glob("*.sgf")] over the names in the directory, in the
    order the file system lists them. *)
Definition glob_sgf (listing : list (str * str)) : list (str * str) :=
  filter (fun f => endswith (py ".sgf") f.1 = true) listing.

(** [lines[1:-2]] *)
Definition slice_1_m2 {A : Type} (l : list A) : list A :=
  take (length l - 3)%nat (drop 1 l).

(** What [f.read()] makes of the characters of a file opened in text
    mode: a carriage return, alone or followed by a line feed, is read
    as one line feed. *)
Fixpoint universal_newlines (s : str) : str :=
  match s with
  | [] => []
  | c :: s' =>
      if bool_decide (c = 13) then
        match s' with
        | d :: s'' =>
            if bool_decide (d = 10) then nl :: universal_newlines s''
            else nl :: universal_newlines s'
        | [] => [nl]
        end
      else c :: universal_newlines s'
  end.

(** The body of the loop of [merge_sgfs]: the game node made of the
    characters [chars] of one file. *)
Definition game_node (chars : str) : str :=
  let game := universal_newlines chars in
  let game := join (slice_1_m2 (split nl game)) in
  py "(;" ++ game ++ py ")".

(** The decimal digits of ASCII and their values. *)
Definition ascii_decimal (c : Z) : option Z :=
  if bool_decide (48 <= c <= 57) then Some (c - 48) else None.

Section Merger.

(** The decimal digits of the interpreter's Unicode database and their
    values (category Nd): the characters [\d] matches in a [str]
    pattern, which are also the digits [int] reads.  The database grows
    from one version of Python to the next; on ASCII it is
    [ascii_decimal]. *)
Variable decimal : Z -> option Z.

Definition isdigit (c : Z) : bool := bool_decide (is_Some (decimal c)).

(** [re.findall(r"\d+", s)]: the maximal runs of digits, left to right;
    [run] holds the digits of the match in progress. *)
Fixpoint findall_from (run : str) (s : str) : list str :=
  match s with
  | [] => match run with [] => [] | _ :: _ => [run] end
  | c :: s' =>
      if isdigit c then findall_from (run ++ [c]) s'
      else match run with
           | [] => findall_from [] s'
           | _ :: _ => run :: findall_from [] s'
           end
  end.

Definition findall_digits (s : str) : list str := findall_from [] s.

(** [int(x)] for a run of digits (a file name is too short to reach the
    limit [int] puts on the number of digits). *)
Definition int_of_digits (x : str) : Z :=
  fold_left (fun n c => 10 * n + default 0 (decimal c)) x 0.

(** The [key] of [sorted]: the integers embedded in the stem. *)
Definition sort_key (name : str) : list Z :=
  map int_of_digits (findall_digits (stem name)).

(** The files in the order in which the loop of [merge_sgfs] reads them. *)
Definition merge_order (listing : list (str * str)) : list (str * str) :=
  sorted (fun f => sort_key f.1) (glob_sgf listing).

(** [listing] holds the name and the characters of every file of
    [sgf_dir]; the result is the text written to [output_file].  A
    comment of [None] is printed by the format string as [None]. *)
Definition merge_sgfs (listing : list (str * str)) (comment : option str)
  : str :=
  let all_games :=
    py "(;FF[4]GM[1]SZ[19]" ++ [nl] ++ py "C["
    ++ default (py "None") comment ++ py "]" in
  let all_games :=
    fold_left
      (fun all_games file =>
         let game := game_node file.2 in
         all_games ++ [nl] ++ game)
      (merge_order listing) all_games in
  all_games ++ [nl] ++ py ")".

End Merger.

(** The orders and the file system of the examples: every set is
    visited in the order of [elements], and every file can be opened. *)
Definition by_elements : orders :=
  {| iter_black := elements; iter_white := elements;
     iter_marks := elements |}.

Definition no_open_error (i : Z) (p : path) : option exn := None.

(** A database with the ASCII digits and the Arabic-Indic digits
    U+0660 .. U+0669. *)
Definition sample_decimal (c : Z) : option Z :=
  if bool_decide (48 <= c <= 57) then Some (c - 48)
  else if bool_decide (1632 <= c <= 1641) then Some (c - 1632)
  else None.

(** The two properties of a database the proofs use: on ASCII it is
    [ascii_decimal]. *)
Definition agrees_on_ascii (decimal : Z -> option Z) : Prop :=
  forall c, 0 <= c < 128 -> decimal c = ascii_decimal c.

(** ** Auxiliary notions used to state the properties *)

(** The inverse of the two character maps of [coord2letter]: the column
    letter gives [col], the row letter gives [row]. *)
Definition letter2coord (size : Z) (letters : str) : option (Z * Z) :=
  match letters with
  | [c; r] => Some (size - 1 - (ord r - 97), ord c - 97)
  | _ => None
  end.

(** All coordinates of a board lie on the board. *)
Definition coords_in_range (g : SimpleSGF.t) : Prop :=
  let ok (row col : Z) :=
    0 <= row < SimpleSGF.size g /\ 0 <= col < SimpleSGF.size g in
  (forall x, x ∈ SimpleSGF.setup_black g -> ok x.1 x.2)
  /\ (forall x, x ∈ SimpleSGF.setup_white g -> ok x.1 x.2)
  /\ (forall x, x ∈ SimpleSGF.marks g -> ok x.1.2 x.2).

(** The two stone glyphs of a diagram. *)
Definition is_stone (c : Z) : bool := bool_decide (c = 64) || bool_decide (c = 33).

(** An order of iteration visits every element of the set once. *)
Definition fair {A : Type} `{Countable A} (iter : gset A -> list A) : Prop :=
  forall s, iter s ≡ₚ elements s.

(** The number of stone glyphs on a line. *)
Definition stones_in (row : str) : Z :=
  Z.of_nat (length (filter (fun c => is_stone c = true) row)).

(** The characters of a line that move the column counter. *)
Definition cells_in (row : str) : Z := Z.of_nat (length row) - stones_in row.

(** [[l1][l2]...]: a list of points as the serializer prints it. *)
Definition bracketed (ls : list str) : str :=
  concat (map (fun l => py "[" ++ l ++ py "]") ls).

(** [x] may stand before [y] in a list sorted by [key]: the key of [y]
    is not less than the key of [x]. *)
Definition key_le {A : Type} (key : A -> list Z) (x y : A) : Prop :=
  list_lt (key y) (key x) = false.

(** The character [c] stands on the line [row] at a place where the
    column counter is [col]: [col] characters other than stone glyphs
    come before it. *)
Definition glyph_at (c : Z) (row : str) (col : Z) : Prop :=
  exists pre post, row = pre ++ c :: post /\ col = cells_in pre.

(** The three characters the label test of [tex2sgf] lets through. *)
Definition is_label (c : Z) : Prop := c = 65 \/ c = 45 \/ c = 90.

(** Every label the loops record is a one-character string made of one
    of the three characters of the label test. *)
Definition labels_ok (st : walk) : Prop :=
  forall y, y ∈ SimpleSGF.marks (game st) ->
            exists c, is_label c /\ y.1.1 = [c].

(** A code point that UTF-8 can carry: anything but a surrogate. *)
Definition encodable (c : Z) : Prop := ~ (55296 <= c <= 57343).

(** The player, the comment and the label texts of a board can be
    encoded. *)
Definition texts_encodable (g : SimpleSGF.t) : Prop :=
  Forall encodable (SimpleSGF.player g)
  /\ (forall c, SimpleSGF.comment g = Some c -> Forall encodable c)
  /\ (forall y, y ∈ SimpleSGF.marks g -> Forall encodable y.1.1).

(** The two letters of a point, as [coord2letter] prints them. *)
Definition letters (g : SimpleSGF.t) (row col : Z) : str :=
  [col + 97; SimpleSGF.size g - row - 1 + 97].

(** The optional properties of a serialized board, one per line, in the
    closed form the serializer is proved to produce: [C], [PL], [AB],
    [AW], [LB], each left out when it has nothing to hold. *)
Definition sections (o : orders) (g : SimpleSGF.t) : list str :=
  let point_text (x : Z * Z) := py "[" ++ letters g x.1 x.2 ++ py "]" in
  let mark_text (y : str * Z * Z) :=
    py "[" ++ letters g y.1.2 y.2 ++ py ":" ++ y.1.1 ++ py "]" in
  match SimpleSGF.comment g with
  | Some ((_ :: _) as c) => [py "C[" ++ c ++ py "]"]
  | _ => []
  end
  ++ match SimpleSGF.player g with
     | (_ :: _) as p => [py "PL[" ++ p ++ py "]"]
     | [] => []
     end
  ++ (if bool_decide (SimpleSGF.setup_black g = ∅) then []
      else [py "AB"
            ++ join (map point_text (iter_black o (SimpleSGF.setup_black g)))])
  ++ (if bool_decide (SimpleSGF.setup_white g = ∅) then []
      else [py "AW"
            ++ join (map point_text (iter_white o (SimpleSGF.setup_white g)))])
  ++ (if bool_decide (SimpleSGF.marks g = ∅) then []
      else [py "LB"
            ++ join (map mark_text (iter_marks o (SimpleSGF.marks g)))]).

(** The text of a record: the header, the given lines, the closing line. *)
Definition record_text (size : Z) (lines : list str) : str :=
  py "(;FF[4]GM[1]SZ[" ++ str_of_int size ++ py "]"
  ++ concat (map (cons nl) lines)
  ++ [nl] ++ py "CA[UTF-8])" ++ [nl].



(** A board with a black stone and a label on the same point, a white
    stone and a comment. *)
Definition sample_board : SimpleSGF.t :=
  {| SimpleSGF.size := 19;
     SimpleSGF.setup_black := {[ (3, 3) ]};
     SimpleSGF.setup_white := {[ (15, 2) ]};
     SimpleSGF.marks := {[ (py "A", 3, 3) ]};
     SimpleSGF.comment := Some (py "1. black to play");
     SimpleSGF.player := py "B" |}.

(** The board the extractor writes for a diagram and its title when it
    does not normalize: the parsed board, White to play when the title
    says so, the stripped title as comment. *)
Definition titled_game (board title : str) : SimpleSGF.t :=
  let name := strip title in
  let game := tex2sgf board in
  SimpleSGF.set_comment
    (if contains (py "white to play") name
     then SimpleSGF.with_player game (py "W") else game)
    name.

(** The bytes of a result, nothing for an exception. *)
Definition bytes_of (r : result (list Z)) : list Z :=
  match r with
  | Ok data => data
  | Raise _ => []
  end.

(** The path of the SGF file of problem [i]. *)
Definition sgf_path (sgf_output_dir : str) (filename : list piece)
    (i : Z) (title : str) : path :=
  (sgf_output_dir, format filename (i + 1) (strip title) ++ py ".sgf").

(** The events of one problem that is written and not rendered: its file
    is opened and the serialized board written to it. *)
Definition sgf_events (orders_of : Z -> orders)
    (sgf_output_dir : str) (filename : list piece)
    (i : Z) (board title : str) : list event :=
  let p := sgf_path sgf_output_dir filename i title in
  [Open p;
   Write p (bytes_of (SimpleSGF.serialize (orders_of i)
                        (titled_game board title)))].

(** Problem [i] can be written: the path of its SGF file holds no NUL
    character, the file system opens it, and its board serializes. *)
Definition problem_writes (orders_of : Z -> orders)
    (open_error : Z -> path -> option exn)
    (sgf_output_dir : str) (filename : list piece)
    (i : Z) (board title : str) : Prop :=
  let p := sgf_path sgf_output_dir filename i title in
(0 ∉ p.1 ++ p.2)
  /\ open_error i p = None
  /\ exists data,
       SimpleSGF.serialize (orders_of i) (titled_game board title) = Ok data.

(** An event that is not the call of an external program. *)
Definition no_call (ev : event) : Prop :=
  match ev with
  | Call _ => False
  | _ => True
  end.

(** Each of the three orders visits every element of its set once. *)
Definition fair_orders (o : orders) : Prop :=
  fair (iter_black o) /\ fair (iter_white o) /\ fair (iter_marks o).

(** * Properties *)

(** ** Strings *)

Lemma contains_stone_glyph (c : Z) : contains [c] (py "@!") = is_stone c.
Proof.
  unfold is_stone. change (py "@!") with [64; 33]. cbn.
  destruct (bool_decide (c = 64)), (bool_decide (c = 33)); reflexivity.
Qed.

Lemma contains_label_glyph (c : Z) :
  contains [c] (py "A-Z")
  = bool_decide (c = 65) || bool_decide (c = 45) || bool_decide (c = 90).
Proof.
  change (py "A-Z") with [65; 45; 90]. cbn.
  destruct (bool_decide (c = 65)), (bool_decide (c = 45)),
    (bool_decide (c = 90)); reflexivity.
Qed.

Lemma mapping_stone (c : Z) : is_stone c = true -> is_Some (mapping c).
Proof.
  unfold is_stone, mapping. intros H.
  destruct (bool_decide (c = 64)); [eauto|].
  destruct (bool_decide (c = 33)); [eauto|discriminate].
Qed.

(** ** The board model *)

Section BoardModel.

Import SimpleSGF.

Lemma flip_colors_stones (g : t) :
  setup_black (flip_colors g) = setup_white g
  /\ setup_white (flip_colors g) = setup_black g.
Proof.
  unfold flip_colors; cbn.
  repeat case_bool_decide; cbn; auto.
Qed.

Lemma flip_colors_player (g : t) :
  player (flip_colors g)
  = if bool_decide (player g = py "B") then py "W" else player g.
Proof.
  unfold flip_colors; cbn.
  repeat case_bool_decide; cbn; congruence.
Qed.

(** C1.  [flip_colors] swaps the two stone sets, and two calls restore
    them; but it never turns White into Black: a board with Black to
    play has White to play after one call and still after two, and a
    board with White to play keeps White to play. *)
Theorem flip_colors_player_sticks_at_white (g : t) :
  setup_black (flip_colors g) = setup_white g
  /\ setup_white (flip_colors g) = setup_black g
  /\ setup_black (flip_colors (flip_colors g)) = setup_black g
  /\ setup_white (flip_colors (flip_colors g)) = setup_white g
  /\ player (init 19) = py "B"
  /\ player (flip_colors (flip_colors (init 19))) = py "W"
  /\ player (flip_colors (with_player g (py "B"))) = py "W"
  /\ player (flip_colors (with_player g (py "W"))) = py "W"
  /\ player (flip_colors (flip_colors (with_player g (py "B")))) = py "W".
Proof.
  destruct (flip_colors_stones g) as [Hb Hw].
  destruct (flip_colors_stones (flip_colors g)) as [Hb' Hw'].
  repeat split; try reflexivity; congruence.
Qed.

(** C7.  [set_player] accepts more than the two colours: the test is a
    substring test in ["BW"], so the two-letter string ["bw"] and the
    empty string pass it and are stored (upper-cased) as the player. *)
Theorem set_player_accepts_non_colors (g : t) :
  set_player g (py "bw") = Ok (with_player g (py "BW"))
  /\ set_player g [] = Ok (with_player g [])
  /\ set_player g (py "b") = Ok (with_player g (py "B"))
  /\ set_player g (py "W") = Ok (with_player g (py "W"))
  /\ set_player g (py "x") = Raise AssertionError.
Proof. repeat split. Qed.

(** C8.  The two calls the extractor makes on a white-to-play problem,
    [set_player("W")] and then [flip_colors()], leave White to play. *)
Theorem set_white_then_flip_stays_white (g : t) :
  (g' ← set_player g (py "W"); mret (player (flip_colors g')))
  = Ok (py "W").
Proof. reflexivity. Qed.

(** C4.  For a row and a column on the board, [coord2letter] yields the
    column letter [chr(col + 97)] followed by the row letter
    [chr(size - row - 1 + 97)] whenever the size stays within the range
    of [chr], and every letter pair it yields decodes to the row and the
    column it was made from. *)
Theorem coord2letter_roundtrip (g : t) (row col : Z) :
  0 <= row < size g -> 0 <= col < size g ->
  (size g <= 1114015 ->
   coord2letter g row col = Ok [col + 97; size g - row - 1 + 97])
  /\ (forall letters, coord2letter g row col = Ok letters ->
      letter2coord (size g) letters = Some (row, col)).
Proof.
  intros Hrow Hcol. unfold coord2letter, chr. split.
  - intros Hsize.
    rewrite !bool_decide_eq_true_2 by lia. reflexivity.
  - intros letters.
    repeat case_bool_decide; cbn; intros Heq; inversion Heq; subst.
    unfold letter2coord, ord. f_equal. f_equal; lia.
Qed.

Lemma coord2letter_roundtrip_19 :
  0 <= 17 < size (init 19) /\ 0 <= 1 < size (init 19)
  /\ coord2letter (init 19) 17 1 = Ok (py "bb")
  /\ letter2coord 19 (py "bb") = Some (17, 1).
Proof.
  assert (R : 0 <= 17 < size (init 19)) by (cbn; lia).
  assert (C : 0 <= 1 < size (init 19)) by (cbn; lia).
  destruct (coord2letter_roundtrip (init 19) 17 1 R C) as [Henc Hdec].
  split; [exact R|]. split; [exact C|]. split.
  - apply Henc. cbn. lia.
  - apply (Hdec (py "bb")). apply Henc. cbn. lia.
Defined.

End BoardModel.

(** ** The diagram parser *)

Lemma walk_symbol_col (row_num : Z) (st : walk) (c : Z) :
  col_num (walk_symbol row_num st c)
  = col_num st + (if is_stone c then 0 else 1).
Proof.
  unfold walk_symbol. rewrite contains_stone_glyph.
  destruct (contains [c] (py "A-Z")), (is_stone c) eqn:Hs; cbn;
    try lia;
    destruct (mapping_stone c Hs) as [k ->]; destruct k; cbn; lia.
Qed.

Lemma cells_in_nil : cells_in [] = 0.
Proof. reflexivity. Qed.

Lemma cells_in_cons (c : Z) (row : str) :
  cells_in (c :: row) = (if is_stone c then 0 else 1) + cells_in row.
Proof.
  unfold cells_in, stones_in. rewrite filter_cons.
  destruct (is_stone c) eqn:Hs.
  - rewrite decide_True by reflexivity. cbn [length]. lia.
  - rewrite decide_False by discriminate. cbn [length]. lia.
Qed.

Lemma cells_in_nonneg (row : str) : 0 <= cells_in row.
Proof.
  induction row as [|c row IH]; [rewrite cells_in_nil; lia|].
  rewrite cells_in_cons. destruct (is_stone c); lia.
Qed.

Lemma walk_row_col (row_num : Z) (row : str) (st : walk) :
  col_num (fold_left (walk_symbol row_num) row st)
  = col_num st + cells_in row.
Proof.
  revert st. induction row as [|c row IH]; intros st; cbn [fold_left].
  - rewrite cells_in_nil. lia.
  - rewrite IH, walk_symbol_col, cells_in_cons. lia.
Qed.

(** C2, as amended.  A stone glyph does not move the column counter and
    every other character moves it by one, so the number of points a
    line accounts for is its character count less its stone glyphs. *)
Theorem column_counter_skips_stone_glyphs
    (row_num : Z) (st : walk) (c : Z) (row : str) :
  col_num (walk_symbol row_num st c)
  = col_num st + (if is_stone c then 0 else 1)
  /\ row_points row = Z.of_nat (length row) - stones_in row.
Proof.
  split; [apply walk_symbol_col|].
  unfold row_points, walk_row. rewrite walk_row_col. cbn [col_num].
  unfold cells_in. lia.
Qed.

(** C2, as stated, fails: a stone glyph alone leaves the column counter
    at 0, and on a line of alternating empty points and stones four
    characters account for two points. *)
Lemma stone_glyph_takes_no_column :
  row_points (py "@") <> 1
  /\ row_points (py "+@+!") <> Z.of_nat (length (py "+@+!")).
Proof. split; vm_compute; discriminate. Qed.

(** C6.  The label test is a substring test in the literal ["A-Z"]: of
    the capital letters only [A] and [Z] are recorded as labels, the
    hyphen is recorded too, and a [B] on the board leaves no label.
    A label character moves the column counter by one. *)
Theorem label_test_is_substring_of_literal (row_num : Z) (st : walk) (c : Z) :
  SimpleSGF.marks (game (walk_symbol row_num st c))
  = (if bool_decide (c = 65) || bool_decide (c = 45) || bool_decide (c = 90)
     then SimpleSGF.marks (game st)
          ∪ {[ ([c], SimpleSGF.size (game st) - 1 - row_num, col_num st) ]}
     else SimpleSGF.marks (game st))
  /\ SimpleSGF.marks (tex2sgf (py "B")) = ∅
  /\ SimpleSGF.marks (tex2sgf (py "-")) = {[ (py "-", 18, 0) ]}
  /\ SimpleSGF.marks (tex2sgf (py "+A")) = {[ (py "A", 18, 1) ]}
  /\ row_points (py "A") = 1.
Proof.
  split; [|repeat split; vm_compute; reflexivity].
  unfold walk_symbol. rewrite contains_stone_glyph, contains_label_glyph.
  destruct (bool_decide (c = 65) || bool_decide (c = 45)
            || bool_decide (c = 90)), (is_stone c) eqn:Hs; cbn;
    try reflexivity;
    destruct (mapping_stone c Hs) as [k ->]; destruct k; reflexivity.
Qed.

(** ** The serializer on the two-line diagram *)

Lemma two_line_diagram_board :
  tex2sgf (py "@!" ++ [nl] ++ py "!@")
  = {| SimpleSGF.size := 19;
       SimpleSGF.setup_black := {[ (18, 0); (17, 0) ]};
       SimpleSGF.setup_white := {[ (18, 0); (17, 0) ]};
       SimpleSGF.marks := ∅;
       SimpleSGF.comment := None;
       SimpleSGF.player := py "B" |}.
Proof. vm_compute. reflexivity. Qed.

Lemma fair_pair (iter : gset (Z * Z) -> list (Z * Z)) :
  fair iter ->
  iter {[ (18, 0); (17, 0) ]} = [(18, 0); (17, 0)]
  \/ iter {[ (18, 0); (17, 0) ]} = [(17, 0); (18, 0)].
Proof.
  intros Hfair. specialize (Hfair {[ (18, 0); (17, 0) ]}).
  assert (He : elements ({[ (18, 0); (17, 0) ]} : gset (Z * Z))
               ≡ₚ [(18, 0); (17, 0)]).
  { rewrite elements_union_singleton.
    - rewrite elements_singleton. reflexivity.
    - intros Hin. apply elem_of_singleton in Hin. discriminate. }
  rewrite He in Hfair. symmetry in Hfair.
  apply Permutation_length_2_inv in Hfair. exact Hfair.
Qed.

(** C3, as amended.  The stone glyphs of a line all fall in column 0,
    since a stone glyph does not move the column counter: the diagram
    of the two lines [@!] and [!@] gives the black stones (18,0) and
    (17,0) and the same two white stones.  Whatever the order in which
    the sets are visited, the serialized board has an [AB] property
    listing exactly the points [aa] and [ab], and an [AW] property
    listing exactly the same two points. *)
Theorem two_line_diagram_end_to_end (o : orders) :
  fair (iter_black o) -> fair (iter_white o) ->
  let g := tex2sgf (py "@!" ++ [nl] ++ py "!@") in
  SimpleSGF.size g = 19
  /\ SimpleSGF.setup_black g = {[ (18, 0); (17, 0) ]}
  /\ SimpleSGF.setup_white g = {[ (18, 0); (17, 0) ]}
  /\ exists ab aw,
      ab ≡ₚ [py "aa"; py "ab"] /\ aw ≡ₚ [py "aa"; py "ab"]
      /\ SimpleSGF.serialize o g
         = Ok (py "(;FF[4]GM[1]SZ[19]" ++ [nl] ++ py "PL[B]" ++ [nl]
               ++ py "AB" ++ bracketed ab ++ [nl]
               ++ py "AW" ++ bracketed aw ++ [nl]
               ++ py "CA[UTF-8])" ++ [nl]).
Proof.
  intros Hfair Hfairw g. subst g. rewrite two_line_diagram_board. cbn [SimpleSGF.size
    SimpleSGF.setup_black SimpleSGF.setup_white].
  split; [reflexivity|]. split; [reflexivity|]. split; [reflexivity|].
  unfold SimpleSGF.serialize, SimpleSGF.serialize_text.
  cbn [SimpleSGF.size SimpleSGF.setup_black SimpleSGF.setup_white
       SimpleSGF.marks SimpleSGF.comment SimpleSGF.player].
  rewrite (bool_decide_eq_false_2 (({[ (18, 0); (17, 0) ]} : gset (Z * Z)) = ∅))
    by (vm_compute; discriminate).
  rewrite (bool_decide_eq_true_2 ((∅ : gset (str * Z * Z)) = ∅))
    by reflexivity.
  destruct (fair_pair (iter_black o) Hfair) as [-> | ->],
    (fair_pair (iter_white o) Hfairw) as [-> | ->].
  - exists [py "aa"; py "ab"], [py "aa"; py "ab"].
    split; [reflexivity|]. split; [reflexivity|].
    vm_compute. reflexivity.
  - exists [py "aa"; py "ab"], [py "ab"; py "aa"].
    split; [reflexivity|]. split; [apply perm_swap|].
    vm_compute. reflexivity.
  - exists [py "ab"; py "aa"], [py "aa"; py "ab"].
    split; [apply perm_swap|]. split; [reflexivity|].
    vm_compute. reflexivity.
  - exists [py "ab"; py "aa"], [py "ab"; py "aa"].
    split; [apply perm_swap|]. split; [apply perm_swap|].
    vm_compute. reflexivity.
Qed.

Lemma two_line_diagram_end_to_end_elements :
  fair (iter_black by_elements) /\ fair (iter_white by_elements)
  /\ exists ab aw,
      ab ≡ₚ [py "aa"; py "ab"] /\ aw ≡ₚ [py "aa"; py "ab"]
      /\ SimpleSGF.serialize by_elements
           (tex2sgf (py "@!" ++ [nl] ++ py "!@"))
         = Ok (py "(;FF[4]GM[1]SZ[19]" ++ [nl] ++ py "PL[B]" ++ [nl]
               ++ py "AB" ++ bracketed ab ++ [nl]
               ++ py "AW" ++ bracketed aw ++ [nl]
               ++ py "CA[UTF-8])" ++ [nl]).
Proof.
  assert (Hfair : fair (iter_black by_elements))
    by (intros s; reflexivity).
  assert (Hfairw : fair (iter_white by_elements))
    by (intros s; reflexivity).
  split; [exact Hfair|]. split; [exact Hfairw|].
  exact (proj2 (proj2 (proj2
    (two_line_diagram_end_to_end by_elements Hfair Hfairw)))).
Defined.

(** C3, as stated, fails: the second line puts its black stone in
    column 0, not in column 1, and its white stone in column 0 too. *)
Lemma two_line_diagram_not_as_expected :
  ~ (SimpleSGF.setup_black (tex2sgf (py "@!" ++ [nl] ++ py "!@"))
     = {[ (18, 0); (17, 1) ]}
     /\ SimpleSGF.setup_white (tex2sgf (py "@!" ++ [nl] ++ py "!@"))
        = {[ (18, 1); (17, 0) ]}).
Proof.
  rewrite two_line_diagram_board. cbn. intros [Hb _].
  assert (Hin : (17, 1) ∈ ({[ (18, 0); (17, 0) ]} : gset (Z * Z)))
    by (rewrite Hb; set_solver).
  apply elem_of_union in Hin as [Hin|Hin];
    apply elem_of_singleton in Hin; discriminate.
Qed.

(** ** The collection merger *)

Lemma list_lt_asym (a b : list Z) : list_lt a b = true -> list_lt b a = false.
Proof.
  revert b. induction a as [|x a IH]; intros [|y b]; cbn; try reflexivity;
    try discriminate.
  repeat case_bool_decide; try lia; try reflexivity; try discriminate.
  apply IH.
Qed.

Lemma list_le_trans (a b c : list Z) :
  list_lt b a = false -> list_lt c b = false -> list_lt c a = false.
Proof.
  revert b c. induction a as [|x a IH]; intros [|y b] [|z c]; cbn;
    try reflexivity; try discriminate.
  repeat case_bool_decide; try lia; try reflexivity; try discriminate.
  apply IH.
Qed.

Section SortedFacts.

Context {A : Type}.
Variable key : A -> list Z.

Lemma insort_perm (x : A) (acc : list A) : insort key x acc ≡ₚ x :: acc.
Proof.
  induction acc as [|y acc IH]; cbn; [reflexivity|].
  destruct (list_lt (key x) (key y)); [reflexivity|].
  rewrite IH. apply perm_swap.
Qed.

Lemma insort_sorted (x : A) (acc : list A) :
  StronglySorted (key_le key) acc -> StronglySorted (key_le key) (insort key x acc).
Proof.
  induction acc as [|y acc IH]; intros Hs; cbn.
  - repeat constructor.
  - apply StronglySorted_inv in Hs as [Hs Hall].
    destruct (list_lt (key x) (key y)) eqn:Hlt.
    + constructor; [constructor; assumption|].
      assert (Hxy : key_le key x y) by (apply list_lt_asym; exact Hlt).
      constructor; [exact Hxy|].
      eapply Forall_impl; [exact Hall|].
      intros z Hyz. unfold key_le in *.
      eapply list_le_trans; [exact Hxy|exact Hyz].
    + constructor; [apply IH; exact Hs|].
      rewrite insort_perm. constructor; [exact Hlt|exact Hall].
Qed.

Lemma fold_insort_perm (xs acc : list A) :
  fold_left (fun acc x => insort key x acc) xs acc ≡ₚ xs ++ acc.
Proof.
  revert acc. induction xs as [|x xs IH]; intros acc; cbn; [reflexivity|].
  rewrite IH, insort_perm. symmetry. apply Permutation_middle.
Qed.

Lemma fold_insort_sorted (xs acc : list A) :
  StronglySorted (key_le key) acc ->
  StronglySorted (key_le key) (fold_left (fun acc x => insort key x acc) xs acc).
Proof.
  revert acc. induction xs as [|x xs IH]; intros acc Hs; cbn; [exact Hs|].
  apply IH, insort_sorted, Hs.
Qed.

Lemma sorted_perm (xs : list A) : sorted key xs ≡ₚ xs.
Proof. unfold sorted. rewrite fold_insort_perm, app_nil_r. reflexivity. Qed.

Lemma sorted_sorted (xs : list A) : StronglySorted (key_le key) (sorted key xs).
Proof. apply fold_insort_sorted. constructor. Qed.

End SortedFacts.

Lemma insort_elem {A : Type} (key : A -> list Z) (x y : A) (acc : list A) :
  y ∈ insort key x acc -> y = x \/ y ∈ acc.
Proof.
  intros H. rewrite insort_perm in H. apply elem_of_cons in H. exact H.
Qed.

Lemma insort_ext {A : Type} (key1 key2 : A -> list Z) (x : A)
    (acc : list A) :
  key1 x = key2 x -> (forall y, y ∈ acc -> key1 y = key2 y) ->
  insort key1 x acc = insort key2 x acc.
Proof.
  intros Hx. induction acc as [|y acc IH]; intros H; cbn; [reflexivity|].
  rewrite Hx, (H y) by apply list_elem_of_here.
  rewrite IH by (intros z Hz; apply H, list_elem_of_further, Hz).
  reflexivity.
Qed.

Lemma sorted_ext {A : Type} (key1 key2 : A -> list Z) (xs : list A) :
  (forall x, x ∈ xs -> key1 x = key2 x) -> sorted key1 xs = sorted key2 xs.
Proof.
  unfold sorted. intros H.
  assert (Hacc : forall y : A, y ∈ ([] : list A) -> key1 y = key2 y).
  { intros y Hy. apply elem_of_nil in Hy. destruct Hy. }
  revert H Hacc. generalize ([] : list A).
  induction xs as [|x xs IH]; intros acc H Hacc; cbn [fold_left];
    [reflexivity|].
  rewrite (insort_ext key1 key2 x acc)
    by (apply H, list_elem_of_here || exact Hacc).
  apply IH.
  - intros y Hy. apply H, list_elem_of_further, Hy.
  - intros y Hy. apply insort_elem in Hy as [->|Hy];
      [apply H, list_elem_of_here|apply Hacc, Hy].
Qed.

Section Databases.

(** Two databases that agree on the characters of a name give it the
    same key. *)
Variable d1 d2 : Z -> option Z.

Lemma findall_from_ext (s run : str) :
  Forall (fun c => d1 c = d2 c) s ->
  findall_from d1 run s = findall_from d2 run s.
Proof.
  intros H. revert run. induction H as [|c s Hc _ IH]; intros run; cbn;
    [reflexivity|].
  unfold isdigit. rewrite Hc, !IH. reflexivity.
Qed.

Lemma findall_from_chars (P : Z -> Prop) (s run : str) :
  Forall P run -> Forall P s -> Forall (Forall P) (findall_from d1 run s).
Proof.
  intros Hrun Hs. revert run Hrun.
  induction Hs as [|c s Hc _ IH]; intros run Hrun; cbn.
  - destruct run; repeat constructor; inversion Hrun; assumption.
  - destruct (isdigit d1 c).
    + apply IH, Forall_app. split; [exact Hrun|repeat constructor; exact Hc].
    + destruct run as [|r run]; [apply IH; constructor|].
      constructor; [exact Hrun|apply IH; constructor].
Qed.

Lemma int_of_digits_ext (x : str) :
  Forall (fun c => d1 c = d2 c) x -> int_of_digits d1 x = int_of_digits d2 x.
Proof.
  unfold int_of_digits. intros H.
  assert (Hfold : forall n,
            fold_left (fun n c => 10 * n + default 0 (d1 c)) x n
            = fold_left (fun n c => 10 * n + default 0 (d2 c)) x n).
  { induction H as [|c x Hc _ IH]; intros n; cbn; [reflexivity|].
    rewrite Hc. apply IH. }
  apply Hfold.
Qed.

Lemma sort_key_ext (name : str) :
  Forall (fun c => d1 c = d2 c) name -> sort_key d1 name = sort_key d2 name.
Proof.
  intros H. unfold sort_key, findall_digits.
  assert (Hstem : Forall (fun c => d1 c = d2 c) (stem name)).
  { unfold stem. case_bool_decide; [apply Forall_take|]; exact H. }
  rewrite <- (findall_from_ext _ [] Hstem).
  apply map_ext_Forall.
  eapply Forall_impl;
    [apply (findall_from_chars (fun c => d1 c = d2 c));
       [constructor|exact Hstem]|].
  intros x Hx. apply int_of_digits_ext, Hx.
Qed.

End Databases.

(** A file name made of ASCII characters. *)
Lemma ascii_name (s : string) : Forall (fun c => 0 <= c < 128) (py s) ->
  forall decimal, agrees_on_ascii decimal ->
  sort_key decimal (py s) = sort_key ascii_decimal (py s).
Proof.
  intros H decimal Hd. apply sort_key_ext.
  eapply Forall_impl; [exact H|]. intros c Hc. apply Hd, Hc.
Qed.

Lemma merge_order_ascii (decimal : Z -> option Z)
    (listing : list (str * str)) :
  agrees_on_ascii decimal ->
  Forall (fun f => Forall (fun c => 0 <= c < 128) f.1) listing ->
  merge_order decimal listing = merge_order ascii_decimal listing.
Proof.
  intros Hd Hall. unfold merge_order. apply sorted_ext.
  intros f Hf. apply list_elem_of_filter in Hf as [_ Hf].
  rewrite Forall_forall in Hall. apply sort_key_ext.
  eapply Forall_impl; [exact (Hall f Hf)|]. intros c Hc. apply Hd, Hc.
Qed.

Lemma merge_sgfs_nodes (decimal : Z -> option Z)
    (listing : list (str * str)) (comment : option str) :
  merge_sgfs decimal listing comment
  = py "(;FF[4]GM[1]SZ[19]" ++ [nl] ++ py "C["
    ++ default (py "None") comment ++ py "]"
    ++ concat (map (fun f => nl :: game_node f.2)
                 (merge_order decimal listing))
    ++ [nl] ++ py ")".
Proof.
  unfold merge_sgfs.
  generalize (merge_order decimal listing) as files.
  intros files.
  assert (Hfold : forall init : str,
            fold_left (fun all_games file =>
                         all_games ++ [nl] ++ game_node file.2) files init
            = init ++ concat (map (fun f => nl :: game_node f.2) files)).
  { induction files as [|f files IH]; intros init; cbn [fold_left map concat].
    - rewrite app_nil_r. reflexivity.
    - rewrite IH, <- !app_assoc. reflexivity. }
  rewrite Hfold, <- !app_assoc. reflexivity.
Qed.

Lemma ascii_literal (s : string) :
  forallb (fun c => bool_decide (0 <= c < 128)) (py s) = true ->
  Forall (fun c => 0 <= c < 128) (py s).
Proof.
  intros H. apply Forall_forall. intros c Hc.
  rewrite forallb_forall in H. apply list_elem_of_In in Hc.
  apply (bool_decide_unpack _). apply Is_true_true, H, Hc.
Qed.

(** C9.  The text the merger writes is the header followed by one game
    node for each [.sgf] file of the directory, in an order in which the
    sequences of integers embedded in the file names never decrease (a
    name with several integers has them all in its key, each read as a
    number); the nodes of the three files [problem 2.sgf],
    [problem 10.sgf], [problem 1.sgf] are written in the order 1, 2, 10,
    which is not the order of the names as strings, where
    [problem 10.sgf] comes before [problem 2.sgf]. *)
Theorem merge_order_is_numeric (decimal : Z -> option Z)
    (listing : list (str * str)) (comment : option str) :
  agrees_on_ascii decimal ->
  merge_sgfs decimal listing comment
  = py "(;FF[4]GM[1]SZ[19]" ++ [nl] ++ py "C["
    ++ default (py "None") comment ++ py "]"
    ++ concat (map (fun f => nl :: game_node f.2)
                 (merge_order decimal listing))
    ++ [nl] ++ py ")"
  /\ merge_order decimal listing ≡ₚ glob_sgf listing
  /\ StronglySorted (key_le (fun f => sort_key decimal f.1))
       (merge_order decimal listing)
  /\ sort_key decimal (py "vol 2 - problem 010.sgf") = [2; 10]
  /\ (forall c2 c10 c1 : str,
        merge_order decimal
          [(py "problem 2.sgf", c2); (py "problem 10.sgf", c10);
           (py "problem 1.sgf", c1)]
        = [(py "problem 1.sgf", c1); (py "problem 2.sgf", c2);
           (py "problem 10.sgf", c10)]
        /\ merge_sgfs decimal
             [(py "problem 2.sgf", c2); (py "problem 10.sgf", c10);
              (py "problem 1.sgf", c1)] comment
           = py "(;FF[4]GM[1]SZ[19]" ++ [nl] ++ py "C["
             ++ default (py "None") comment ++ py "]"
             ++ [nl] ++ game_node c1 ++ [nl] ++ game_node c2
             ++ [nl] ++ game_node c10 ++ [nl] ++ py ")")
  /\ sort_key decimal (py "problem 10.sgf") = [10]
  /\ list_lt (py "problem 10.sgf") (py "problem 2.sgf") = true.
Proof.
  intros Hd.
  assert (Horder : forall c2 c10 c1 : str,
            merge_order decimal
              [(py "problem 2.sgf", c2); (py "problem 10.sgf", c10);
               (py "problem 1.sgf", c1)]
            = [(py "problem 1.sgf", c1); (py "problem 2.sgf", c2);
               (py "problem 10.sgf", c10)]).
  { intros c2 c10 c1. rewrite merge_order_ascii; [vm_compute; reflexivity| |];
      [exact Hd|].
    constructor; [|constructor; [|constructor; [|constructor]]]; cbn [fst];
      apply ascii_literal; reflexivity. }
  split; [apply merge_sgfs_nodes|].
  split; [apply sorted_perm|].
  split; [apply sorted_sorted|].
  split.
  { rewrite (ascii_name "vol 2 - problem 010.sgf");
      [vm_compute; reflexivity| |exact Hd].
    apply ascii_literal. reflexivity. }
  split.
  { intros c2 c10 c1. split; [apply Horder|].
    rewrite merge_sgfs_nodes, Horder. cbn [map concat fst snd].
    rewrite app_nil_r, <- !app_assoc. reflexivity. }
  split; [|vm_compute; reflexivity].
  rewrite (ascii_name "problem 10.sgf"); [vm_compute; reflexivity| |exact Hd].
  apply ascii_literal. reflexivity.
Qed.

Lemma sample_decimal_agrees : agrees_on_ascii sample_decimal.
Proof.
  intros c Hc. unfold sample_decimal, ascii_decimal.
  repeat case_bool_decide; try reflexivity; lia.
Qed.

Lemma merge_order_is_numeric_arabic_indic :
  agrees_on_ascii sample_decimal
  /\ merge_sgfs sample_decimal
       [(py "problem 10.sgf", py "a"); (py "problem " ++ [1635] ++ py ".sgf",
        py "b"); (py "notes.txt", py "c"); (py "problem 1.sgf", py "d")]
       None
     = py "(;FF[4]GM[1]SZ[19]" ++ [nl] ++ py "C[None]"
       ++ [nl] ++ game_node (py "d") ++ [nl] ++ game_node (py "b")
       ++ [nl] ++ game_node (py "a") ++ [nl] ++ py ")".
Proof.
  split; [apply sample_decimal_agrees|].
  rewrite (proj1 (merge_order_is_numeric sample_decimal _ None
                    sample_decimal_agrees)).
  vm_compute. reflexivity.
Defined.

(** ** The batch extractor *)

Lemma startswith_app (p b : str) : startswith p (p ++ b) = true.
Proof.
  induction p as [|c p IH]; cbn; [reflexivity|].
  rewrite bool_decide_eq_true_2 by reflexivity. exact IH.
Qed.

Lemma startswith_inv (p s : str) :
  startswith p s = true -> exists b, s = p ++ b.
Proof.
  revert s. induction p as [|c p IH]; intros s H; [exists s; reflexivity|].
  destruct s as [|d s]; cbn in H; [discriminate|].
  apply andb_true_iff in H as [Hc Hp].
  apply bool_decide_eq_true in Hc. subst d.
  destruct (IH s Hp) as [b ->]. exists b. reflexivity.
Qed.

Lemma contains_app (p a b : str) : contains p (a ++ p ++ b) = true.
Proof.
  induction a as [|c a IH]; cbn [app].
  - destruct (p ++ b) eqn:E; cbn; rewrite <- E, startswith_app; reflexivity.
  - cbn. rewrite IH. apply orb_true_r.
Qed.

Lemma contains_inv (p s : str) :
  contains p s = true -> exists a b, s = a ++ p ++ b.
Proof.
  induction s as [|c s IH]; cbn; intros H.
  - rewrite orb_false_r in H. apply startswith_inv in H as [b ->].
    exists [], b. reflexivity.
  - apply orb_true_iff in H as [H|H].
    + apply startswith_inv in H as [b ->]. exists [], b. reflexivity.
    + destruct (IH H) as (a & b & ->). exists (c :: a), b. reflexivity.
Qed.

Lemma lstrip_keeps (a : str) (c : Z) (r : str) :
  isspace c = false -> exists a', lstrip (a ++ c :: r) = a' ++ c :: r.
Proof.
  intros Hc. induction a as [|d a IH]; cbn [app lstrip].
  - rewrite Hc. exists []. reflexivity.
  - destruct (isspace d); [exact IH|]. exists (d :: a). reflexivity.
Qed.

Lemma rstrip_keeps (r : str) (d : Z) (b : str) :
  isspace d = false -> exists b', rstrip (r ++ d :: b) = r ++ d :: b'.
Proof.
  intros Hd. unfold rstrip.
  rewrite rev_app_distr. cbn [rev]. rewrite <- app_assoc. cbn [app].
  destruct (lstrip_keeps (rev b) d (rev r) Hd) as [b' ->].
  exists (rev b'). rewrite rev_app_distr. cbn [rev].
  rewrite rev_involutive, <- app_assoc. reflexivity.
Qed.

(** Stripping a title keeps a phrase that starts and ends in a
    character other than white space. *)
Lemma contains_strip (c : Z) (q : str) (d : Z) (s : str) :
  isspace c = false -> isspace d = false ->
  contains (c :: q ++ [d]) s = true ->
  contains (c :: q ++ [d]) (strip s) = true.
Proof.
  intros Hc Hd H. apply contains_inv in H as (a & b & ->).
  unfold strip. cbn [app].
  destruct (lstrip_keeps a c ((q ++ [d]) ++ b) Hc) as [a' ->].
  replace (a' ++ c :: (q ++ [d]) ++ b) with ((a' ++ c :: q) ++ d :: b)
    by (rewrite <- !app_assoc; reflexivity).
  destruct (rstrip_keeps (a' ++ c :: q) d b Hd) as [b' ->].
  replace ((a' ++ c :: q) ++ d :: b') with (a' ++ (c :: q ++ [d]) ++ b')
    by (cbn [app]; rewrite <- !app_assoc; reflexivity).
  apply contains_app.
Qed.

Lemma white_to_play_strip (title : str) :
  contains (py "white to play") title = true ->
  contains (py "white to play") (strip title) = true.
Proof.
  change (py "white to play") with (119 :: py "hite to pla" ++ [121]).
  apply contains_strip; reflexivity.
Qed.

Lemma io_bind_ret {A : Type} (k : unit -> io A) : (mret tt ≫= k) = k tt.
Proof.
  unfold mbind, io_bind, mret, io_ret. cbn. destruct (k tt). reflexivity.
Qed.

Lemma io_bind_lift_ok {A B : Type} (a : A) (k : A -> io B) :
  (lift (Ok a) ≫= k) = k a.
Proof. unfold mbind, io_bind, lift. cbn. destruct (k a). reflexivity. Qed.

Lemma io_bind_assoc {A B C : Type} (m : io A) (f : A -> io B) (k : B -> io C) :
  ((m ≫= f) ≫= k) = (m ≫= fun a => f a ≫= k).
Proof.
  unfold mbind, io_bind. destruct m as [tr [a|e]]; cbn; [|reflexivity].
  destruct (f a) as [tr' [b|e]]; cbn; [|reflexivity].
  destruct (k b) as [tr'' r]; cbn. rewrite app_assoc. reflexivity.
Qed.

Lemma io_bind_ext {A B : Type} (m : io A) (f g : A -> io B) :
  (forall a, f a = g a) -> (m ≫= f) = (m ≫= g).
Proof.
  intros H. unfold mbind, io_bind.
  destruct m as [tr [a|e]]; cbn; [rewrite H|]; reflexivity.
Qed.

Section ExtractorFacts.

Variable orders_of : Z -> orders.
Variable open_error : Z -> path -> option exn.
Variable has_svgcleaner : bool.
Variable sgf_output_dir : str.
Variable render_output_dir : option str.
Variable filename : list piece.

Local Abbreviation problem :=
  (extract_problem orders_of open_error has_svgcleaner
     sgf_output_dir render_output_dir filename).
Local Abbreviation loop :=
  (extract_loop orders_of open_error has_svgcleaner
     sgf_output_dir render_output_dir filename).

Lemma extract_problem_endwith (i : Z) (board title : str) :
  contains (py "white to play") title = true ->
  problem true i board title = ([], Raise AttributeError).
Proof.
  intros H. apply white_to_play_strip in H.
  unfold extract_problem. rewrite H. reflexivity.
Qed.

Lemma extract_loop_endwith (i : Z) (board title : str)
    (post : list (str * str)) :
  contains (py "white to play") title = true ->
  loop true i ((board, title) :: post) = ([], Raise AttributeError).
Proof.
  intros H. pose proof (extract_problem_endwith i board title H) as Hstop.
  cbn [extract_loop]. rewrite Hstop. reflexivity.
Qed.

Lemma extract_loop_app (normalize : bool) (pre rest : list (str * str)) (i : Z) :
  loop normalize i (pre ++ rest)
  = (loop normalize i pre
       ≫= fun _ => loop normalize (i + Z.of_nat (length pre)) rest).
Proof.
  revert i. induction pre as [|[board title] pre IH]; intros i.
  - cbn [app length]. rewrite Z.add_0_r.
    cbn [extract_loop]. rewrite io_bind_ret. reflexivity.
  - cbn [app length]. cbn [extract_loop].
    rewrite io_bind_assoc. apply io_bind_ext. intros _.
    rewrite IH. apply io_bind_ext. intros _. f_equal. lia.
Qed.

(** C10.  In a run with [normalize] set, a problem whose title contains
    "white to play" stops the run with an exception: the run emits the
    events of the problems before it and nothing more, so neither that
    problem nor a later one gets a file, and when the problems before it
    pass, the exception is the [AttributeError] of [name.endwith]. *)
Theorem normalize_run_raises_on_white_to_play
    (boards titles : list str) (pre post : list (str * str))
    (board title : str) :
  zip boards titles = pre ++ (board, title) :: post ->
  contains (py "white to play") title = true ->
  let run := extract_sgf orders_of open_error has_svgcleaner
               sgf_output_dir render_output_dir filename true boards titles in
  let before := loop true 0 pre in
  (exists e, run.2 = Raise e)
  /\ run.1 = before.1
  /\ (before.2 = Ok tt -> run.2 = Raise AttributeError).
Proof.
  intros Hzip Htitle run before. subst run before.
  unfold extract_sgf. rewrite Hzip.
  rewrite extract_loop_app, extract_loop_endwith by exact Htitle.
  unfold mbind, io_bind. cbn [fst snd].
  destruct (loop true 0 pre) as [tr [[]|e]]; cbn [fst snd].
  - rewrite app_nil_r. eauto.
  - split; [eauto|]. split; [reflexivity|]. discriminate.
Qed.

End ExtractorFacts.

Lemma normalize_run_raises_on_one_problem :
  zip [py "\- @+"] [py " 1. white to play "]
  = [] ++ (py "\- @+", py " 1. white to play ") :: []
  /\ contains (py "white to play") (py " 1. white to play ") = true
  /\ extract_sgf (fun _ => by_elements) no_open_error false (py "out") None default_filename
       true [py "\- @+"] [py " 1. white to play "]
     = ([], Raise AttributeError).
Proof.
  assert (Hzip : zip [py "\- @+"] [py " 1. white to play "]
                 = [] ++ (py "\- @+", py " 1. white to play ") :: [])
    by reflexivity.
  assert (Htitle : contains (py "white to play") (py " 1. white to play ")
                   = true) by reflexivity.
  split; [exact Hzip|]. split; [exact Htitle|].
  destruct (normalize_run_raises_on_white_to_play (fun _ => by_elements)
              no_open_error false
              (py "out") None default_filename _ _ _ _ _ _ Hzip Htitle)
    as (_ & Htrace & Hexn).
  apply injective_projections; [exact Htrace|].
  apply Hexn. reflexivity.
Defined.

(** * Further properties of the code *)

(** ** The board model, continued *)

Lemma contains_in_BW (u : str) :
  contains u (py "BW") = bool_decide (u ∈ [[]; py "B"; py "W"; py "BW"]).
Proof.
  change (py "BW") with [66; 87]. change (py "B") with [66].
  change (py "W") with [87].
  destruct (bool_decide (u ∈ [[]; [66]; [87]; [66; 87]])) eqn:Hin.
  - apply bool_decide_eq_true in Hin.
    repeat (apply elem_of_cons in Hin as [->|Hin]; [reflexivity|]).
    apply elem_of_nil in Hin. destruct Hin.
  - apply bool_decide_eq_false in Hin.
    destruct (contains u [66; 87]) eqn:Hc; [|reflexivity].
    exfalso. apply Hin. clear Hin.
    destruct u as [|a [|b [|c u]]]; cbn in Hc.
    + set_solver.
    + repeat case_bool_decide; subst; try discriminate; set_solver.
    + repeat case_bool_decide; subst; try discriminate; set_solver.
    + repeat case_bool_decide; subst; discriminate.
Qed.

(** X1.  [set_player] stores the upper-cased argument exactly when that is
    one of the four substrings of ["BW"], and raises [AssertionError]
    otherwise. *)
Theorem set_player_accepts_substrings (g : SimpleSGF.t) (p : str) :
  SimpleSGF.set_player g p
  = if bool_decide (upper p ∈ [[]; py "B"; py "W"; py "BW"])
    then Ok (SimpleSGF.with_player g (upper p))
    else Raise AssertionError.
Proof. unfold SimpleSGF.set_player. rewrite contains_in_BW. reflexivity. Qed.

(** X2.  [flip_colors] touches nothing but the stones and the player:
    size, labels and comment stay, and a board whose coordinates are on
    the board keeps that property. *)
Theorem flip_colors_frame (g : SimpleSGF.t) :
  SimpleSGF.size (SimpleSGF.flip_colors g) = SimpleSGF.size g
  /\ SimpleSGF.marks (SimpleSGF.flip_colors g) = SimpleSGF.marks g
  /\ SimpleSGF.comment (SimpleSGF.flip_colors g) = SimpleSGF.comment g
  /\ (coords_in_range g -> coords_in_range (SimpleSGF.flip_colors g)).
Proof.
  assert (H : SimpleSGF.size (SimpleSGF.flip_colors g) = SimpleSGF.size g
              /\ SimpleSGF.marks (SimpleSGF.flip_colors g) = SimpleSGF.marks g
              /\ SimpleSGF.comment (SimpleSGF.flip_colors g)
                 = SimpleSGF.comment g).
  { unfold SimpleSGF.flip_colors; cbn.
    repeat case_bool_decide; cbn; auto. }
  destruct H as (Hs & Hm & Hc). repeat (split; [assumption|]).
  destruct (flip_colors_stones g) as [Hb Hw].
  unfold coords_in_range. rewrite Hs, Hm, Hb, Hw. tauto.
Qed.

(** X3.  On a board of at most 26 lines, a point of the board is printed
    as two lower-case letters [a]..[z], and two different points are
    printed differently. *)
Theorem coord2letter_lowercase (g : SimpleSGF.t) (row col row' col' : Z) :
  SimpleSGF.size g <= 26 ->
  0 <= row < SimpleSGF.size g -> 0 <= col < SimpleSGF.size g ->
  0 <= row' < SimpleSGF.size g -> 0 <= col' < SimpleSGF.size g ->
  exists c r,
    SimpleSGF.coord2letter g row col = Ok [c; r]
    /\ 97 <= c <= 122 /\ 97 <= r <= 122
    /\ (SimpleSGF.coord2letter g row' col' = Ok [c; r] ->
        row' = row /\ col' = col).
Proof.
  intros Hsize Hrow Hcol Hrow' Hcol'.
  exists (col + 97), (SimpleSGF.size g - row - 1 + 97).
  unfold SimpleSGF.coord2letter, chr.
  rewrite !bool_decide_eq_true_2 by lia. cbn.
  split; [reflexivity|]. split; [lia|]. split; [lia|].
  intros Heq. inversion Heq. lia.
Qed.

Lemma coord2letter_lowercase_19 :
  SimpleSGF.size (SimpleSGF.init 19) <= 26
  /\ exists c r,
      SimpleSGF.coord2letter (SimpleSGF.init 19) 0 18 = Ok [c; r]
      /\ 97 <= c <= 122 /\ 97 <= r <= 122.
Proof.
  assert (Hs : SimpleSGF.size (SimpleSGF.init 19) <= 26) by (cbn; lia).
  split; [exact Hs|].
  destruct (coord2letter_lowercase (SimpleSGF.init 19) 0 18 0 18 Hs)
    as (c & r & H & Hc & Hr & _); cbn; try lia.
  exists c, r. auto.
Defined.

(** X4.  [coord2letter] checks nothing about the board: it raises only
    when one of the two code points, [col + 97] and
    [size - row - 1 + 97], leaves the range of [chr], the column being
    looked at first; the exception is then [ValueError] when that code
    point fits a C [int] and [OverflowError] when it does not.  A point
    off the board but inside the range is printed without complaint. *)
Theorem coord2letter_raises_only_outside_chr (g : SimpleSGF.t) (row col : Z) :
  let c := col + 97 in
  let r := SimpleSGF.size g - row - 1 + 97 in
  let out_of_range (i : Z) : exn :=
    if bool_decide (-2147483648 <= i <= 2147483647) then ValueError
    else OverflowError in
  SimpleSGF.coord2letter g row col
  = if bool_decide (0 <= c < 1114112) then
      if bool_decide (0 <= r < 1114112) then Ok [c; r]
      else Raise (out_of_range r)
    else Raise (out_of_range c).
Proof.
  cbn zeta. unfold SimpleSGF.coord2letter, chr.
  repeat case_bool_decide; cbn; try reflexivity; lia.
Qed.

(** ** The diagram parser, continued *)

Lemma walk_symbol_size (row_num : Z) (st : walk) (c : Z) :
  SimpleSGF.size (game (walk_symbol row_num st c)) = SimpleSGF.size (game st).
Proof.
  unfold walk_symbol. rewrite contains_stone_glyph.
  destruct (contains [c] (py "A-Z")), (is_stone c) eqn:Hs; cbn;
    try reflexivity;
    destruct (mapping_stone c Hs) as [k ->]; destruct k; reflexivity.
Qed.

Lemma walk_symbol_marks (row_num : Z) (st : walk) (c : Z) :
  SimpleSGF.marks (game (walk_symbol row_num st c))
  = if bool_decide (c = 65) || bool_decide (c = 45) || bool_decide (c = 90)
    then SimpleSGF.marks (game st)
         ∪ {[ ([c], SimpleSGF.size (game st) - 1 - row_num, col_num st) ]}
    else SimpleSGF.marks (game st).
Proof.
  unfold walk_symbol. rewrite contains_stone_glyph, contains_label_glyph.
  destruct (bool_decide (c = 65) || bool_decide (c = 45)
            || bool_decide (c = 90)), (is_stone c) eqn:Hs; cbn;
    try reflexivity;
    destruct (mapping_stone c Hs) as [k ->]; destruct k; reflexivity.
Qed.

Lemma walk_symbol_black (row_num : Z) (st : walk) (c : Z) :
  setup_of_black (walk_symbol row_num st c)
  = setup_of_black st
    ++ (if bool_decide (c = 64)
        then [(SimpleSGF.size (game st) - 1 - row_num, col_num st)] else []).
Proof.
  unfold walk_symbol. rewrite contains_stone_glyph.
  unfold is_stone, mapping.
  destruct (contains [c] (py "A-Z")); cbn;
    repeat case_bool_decide; subst; cbn; try discriminate;
    rewrite ?app_nil_r; try reflexivity; lia.
Qed.

Lemma walk_symbol_white (row_num : Z) (st : walk) (c : Z) :
  setup_of_white (walk_symbol row_num st c)
  = setup_of_white st
    ++ (if bool_decide (c = 33)
        then [(SimpleSGF.size (game st) - 1 - row_num, col_num st)] else []).
Proof.
  unfold walk_symbol. rewrite contains_stone_glyph.
  unfold is_stone, mapping.
  destruct (contains [c] (py "A-Z")); cbn;
    repeat case_bool_decide; subst; cbn; try discriminate;
    rewrite ?app_nil_r; try reflexivity; lia.
Qed.

Lemma walk_symbols_size (row_num : Z) (row : str) (st : walk) :
  SimpleSGF.size (game (fold_left (walk_symbol row_num) row st))
  = SimpleSGF.size (game st).
Proof.
  revert st. induction row as [|c row IH]; intros st; cbn [fold_left];
    [reflexivity|].
  rewrite IH. apply walk_symbol_size.
Qed.

Lemma walk_row_size (row_num : Z) (row : str) (st : walk) :
  SimpleSGF.size (game (walk_row row_num st row)) = SimpleSGF.size (game st).
Proof. unfold walk_row. rewrite walk_symbols_size. reflexivity. Qed.

(** How one kind of record (the black stones, the white stones, the
    labels of one letter) grows along the two loops: [holds st x] says
    that the point [x] is recorded in [st], and [c] is the character
    that records a point. *)
Section GlyphWalk.

Variable holds : walk -> Z * Z -> Prop.
Variable c : Z.

Hypothesis holds_step : forall row_num st d x,
  holds (walk_symbol row_num st d) x
  <-> holds st x
      \/ (d = c /\ x = (SimpleSGF.size (game st) - 1 - row_num, col_num st)).

Hypothesis holds_reset : forall st x,
  holds {| game := game st; setup_of_black := setup_of_black st;
           setup_of_white := setup_of_white st; col_num := 0 |} x
  <-> holds st x.

Lemma walk_symbols_holds (row_num : Z) (row : str) (st : walk) (x : Z * Z) :
  holds (fold_left (walk_symbol row_num) row st) x
  <-> holds st x
      \/ exists pre post,
           row = pre ++ c :: post
           /\ x = (SimpleSGF.size (game st) - 1 - row_num,
                   col_num st + cells_in pre).
Proof.
  revert st. induction row as [|d row IH]; intros st; cbn [fold_left].
  - split; [auto|]. intros [H|(pre & post & Hrow & _)]; [exact H|].
    destruct pre; discriminate.
  - rewrite IH, holds_step, walk_symbol_size, walk_symbol_col. split.
    + intros [[H|[-> ->]]|(pre & post & -> & ->)].
      * left. exact H.
      * right. exists [], row. rewrite cells_in_nil, Z.add_0_r. auto.
      * right. exists (d :: pre), post. rewrite cells_in_cons.
        split; [reflexivity|]. f_equal. lia.
    + intros [H|(pre & post & Hrow & ->)]; [auto|].
      destruct pre as [|e pre]; cbn [app] in Hrow; inversion Hrow; subst.
      * left. right. rewrite cells_in_nil, Z.add_0_r. auto.
      * right. exists pre, post. rewrite cells_in_cons.
        split; [reflexivity|]. f_equal. lia.
Qed.

Lemma walk_rows_holds (lines : list str) (row_num : Z) (st : walk)
    (x : Z * Z) :
  holds (walk_rows row_num st lines) x
  <-> holds st x
      \/ exists (i : nat) (row : str),
           lines !! i = Some row /\ glyph_at c row x.2
           /\ x.1 = SimpleSGF.size (game st) - 1 - (row_num + Z.of_nat i).
Proof.
  revert row_num st.
  induction lines as [|row lines IH]; intros row_num st; cbn [walk_rows].
  - split; [auto|]. intros [H|(i & row & Hi & _)]; [exact H|].
    rewrite lookup_nil in Hi. discriminate.
  - rewrite IH, walk_row_size. unfold walk_row at 1.
    rewrite walk_symbols_holds, holds_reset. cbn [game col_num]. split.
    + intros [[H|(pre & post & -> & ->)]|(i & row' & Hi & Hg & Hx)].
      * left. exact H.
      * right. exists O, (pre ++ c :: post). cbn.
        split; [reflexivity|]. split; [|lia].
        exists pre, post. split; [reflexivity|lia].
      * right. exists (S i), row'. cbn. split; [exact Hi|].
        split; [exact Hg|lia].
    + intros [H|(i & row' & Hi & Hg & Hx)]; [auto|].
      destruct i as [|i]; cbn in Hi.
      * inversion Hi; subst row'. destruct Hg as (pre & post & -> & Hcol).
        left. right. exists pre, post. split; [reflexivity|].
        destruct x as [x1 x2]; cbn in *. f_equal; lia.
      * right. exists i, row'. split; [exact Hi|]. split; [exact Hg|lia].
Qed.

End GlyphWalk.

Lemma tex2sgf_black (tex : str) (x : Z * Z) :
  x ∈ SimpleSGF.setup_black (tex2sgf tex)
  <-> exists (i : nat) (row : str),
        clean_lines tex !! i = Some row /\ glyph_at 64 row x.2
        /\ x.1 = 18 - Z.of_nat i.
Proof.
  unfold tex2sgf. cbn [SimpleSGF.set_setup_stones SimpleSGF.setup_black].
  rewrite elem_of_list_to_set.
  rewrite (walk_rows_holds (fun st x => x ∈ setup_of_black st) 64).
  - cbn. split.
    + intros [H|(i & row & Hi & Hg & Hx)];
        [apply elem_of_nil in H; destruct H|].
      exists i, row. split; [exact Hi|]. split; [exact Hg|lia].
    + intros (i & row & Hi & Hg & Hx). right. exists i, row.
      split; [exact Hi|]. split; [exact Hg|lia].
  - intros row_num st d y. rewrite walk_symbol_black, elem_of_app.
    case_bool_decide; [rewrite list_elem_of_singleton|rewrite elem_of_nil];
      tauto.
  - intros st y. reflexivity.
Qed.

Lemma tex2sgf_white (tex : str) (x : Z * Z) :
  x ∈ SimpleSGF.setup_white (tex2sgf tex)
  <-> exists (i : nat) (row : str),
        clean_lines tex !! i = Some row /\ glyph_at 33 row x.2
        /\ x.1 = 18 - Z.of_nat i.
Proof.
  unfold tex2sgf. cbn [SimpleSGF.set_setup_stones SimpleSGF.setup_white].
  rewrite elem_of_list_to_set.
  rewrite (walk_rows_holds (fun st x => x ∈ setup_of_white st) 33).
  - cbn. split.
    + intros [H|(i & row & Hi & Hg & Hx)];
        [apply elem_of_nil in H; destruct H|].
      exists i, row. split; [exact Hi|]. split; [exact Hg|lia].
    + intros (i & row & Hi & Hg & Hx). right. exists i, row.
      split; [exact Hi|]. split; [exact Hg|lia].
  - intros row_num st d y. rewrite walk_symbol_white, elem_of_app.
    case_bool_decide; [rewrite list_elem_of_singleton|rewrite elem_of_nil];
      tauto.
  - intros st y. reflexivity.
Qed.

(** X5.  Where the parser puts the stones: a point is a black stone of
    the parsed board exactly when some line [i] of the cleaned diagram
    has an [@] whose column count is the point's column, the row being
    [18 - i]; the same for the white stones and [!]. *)
Theorem tex2sgf_stones (tex : str) (x : Z * Z) :
  (x ∈ SimpleSGF.setup_black (tex2sgf tex)
   <-> exists (i : nat) (row : str),
         clean_lines tex !! i = Some row /\ glyph_at 64 row x.2
         /\ x.1 = 18 - Z.of_nat i)
  /\ (x ∈ SimpleSGF.setup_white (tex2sgf tex)
      <-> exists (i : nat) (row : str),
            clean_lines tex !! i = Some row /\ glyph_at 33 row x.2
            /\ x.1 = 18 - Z.of_nat i).
Proof. split; [apply tex2sgf_black|apply tex2sgf_white]. Qed.

Lemma label_test_true (c : Z) :
  is_label c ->
  bool_decide (c = 65) || bool_decide (c = 45) || bool_decide (c = 90) = true.
Proof.
  intros [->| [->| ->]]; reflexivity.
Qed.

Lemma label_test_false (c : Z) :
  ~ is_label c ->
  bool_decide (c = 65) || bool_decide (c = 45) || bool_decide (c = 90)
  = false.
Proof.
  unfold is_label. intros H. repeat case_bool_decide; try reflexivity; tauto.
Qed.

Lemma walk_symbol_label_step (c : Z) (row_num : Z) (st : walk) (d : Z)
    (x : Z * Z) :
  is_label c ->
  ([c], x.1, x.2) ∈ SimpleSGF.marks (game (walk_symbol row_num st d))
  <-> ([c], x.1, x.2) ∈ SimpleSGF.marks (game st)
      \/ (d = c /\ x = (SimpleSGF.size (game st) - 1 - row_num, col_num st)).
Proof.
  intros Hc. rewrite walk_symbol_marks. destruct x as [x1 x2]; cbn [fst snd].
  destruct (bool_decide (d = 65) || bool_decide (d = 45)
            || bool_decide (d = 90)) eqn:Hd.
  - rewrite elem_of_union, elem_of_singleton. split.
    + intros [H|H]; [auto|]. inversion H; subst. auto.
    + intros [H|[-> H]]; [auto|]. inversion H; subst. auto.
  - split; [auto|]. intros [H|[-> _]]; [exact H|].
    rewrite label_test_true in Hd by exact Hc. discriminate.
Qed.

Lemma walk_symbol_labels_ok (row_num : Z) (st : walk) (d : Z) :
  labels_ok st -> labels_ok (walk_symbol row_num st d).
Proof.
  intros Hok y. rewrite walk_symbol_marks.
  destruct (bool_decide (d = 65) || bool_decide (d = 45)
            || bool_decide (d = 90)) eqn:Hd; [|apply Hok].
  rewrite elem_of_union, elem_of_singleton. intros [H| ->]; [apply Hok, H|].
  exists d. split; [|reflexivity].
  unfold is_label. repeat case_bool_decide; try discriminate; auto.
Qed.

Lemma walk_rows_labels_ok (lines : list str) (row_num : Z) (st : walk) :
  labels_ok st -> labels_ok (walk_rows row_num st lines).
Proof.
  revert row_num st.
  induction lines as [|row lines IH]; intros row_num st Hok; cbn [walk_rows];
    [exact Hok|].
  apply IH. unfold walk_row.
  set (st0 := {| game := game st; setup_of_black := setup_of_black st;
                 setup_of_white := setup_of_white st; col_num := 0 |}).
  assert (H0 : labels_ok st0) by exact Hok.
  clearbody st0. clear Hok. revert st0 H0.
  induction row as [|d row IHrow]; intros st0 H0; cbn [fold_left];
    [exact H0|].
  apply IHrow, walk_symbol_labels_ok, H0.
Qed.

Lemma tex2sgf_marks (tex : str) (l : str) (r k : Z) :
  (l, r, k) ∈ SimpleSGF.marks (tex2sgf tex)
  <-> exists (c : Z) (i : nat) (row : str),
        is_label c /\ l = [c]
        /\ clean_lines tex !! i = Some row /\ glyph_at c row k
        /\ r = 18 - Z.of_nat i.
Proof.
  unfold tex2sgf. cbn [SimpleSGF.set_setup_stones SimpleSGF.marks].
  set (st0 := {| game := SimpleSGF.init 19; setup_of_black := [];
                 setup_of_white := []; col_num := 0 |}).
  assert (Hrows : forall c, is_label c ->
            ([c], r, k) ∈ SimpleSGF.marks
                            (game (walk_rows 0 st0 (clean_lines tex)))
            <-> exists (i : nat) (row : str),
                  clean_lines tex !! i = Some row /\ glyph_at c row k
                  /\ r = 18 - Z.of_nat i).
  { intros c Hc.
    rewrite (walk_rows_holds
               (fun st x => ([c], x.1, x.2) ∈ SimpleSGF.marks (game st)) c
               (fun row_num st d x =>
                  walk_symbol_label_step c row_num st d x Hc)
               (fun st x => iff_refl _)
               (clean_lines tex) 0 st0 (r, k)).
    cbn. split.
    - intros [H|(i & row & Hi & Hg & Hx)];
        [apply not_elem_of_empty in H; destruct H|].
      exists i, row. split; [exact Hi|]. split; [exact Hg|lia].
    - intros (i & row & Hi & Hg & Hx). right. exists i, row.
      split; [exact Hi|]. split; [exact Hg|lia]. }
  split.
  - intros H.
    assert (Hok : labels_ok (walk_rows 0 st0 (clean_lines tex))).
    { apply walk_rows_labels_ok. intros y Hy.
      apply not_elem_of_empty in Hy. destruct Hy. }
    destruct (Hok _ H) as (c & Hc & Hl). cbn in Hl. subst l.
    apply (Hrows c Hc) in H as (i & row & Hi & Hg & Hx).
    exists c, i, row. auto.
  - intros (c & i & row & Hc & -> & Hi & Hg & Hx).
    apply (Hrows c Hc). exists i, row. auto.
Qed.

(** X6.  Where the parser puts the labels: the triple [(l, r, k)] is a
    label of the parsed board exactly when [l] is the one character [c]
    with [c] among [A], [-] and [Z], and some line [i] of the cleaned
    diagram has [c] at column count [k], with [r = 18 - i]. *)
Theorem tex2sgf_labels (tex : str) (l : str) (r k : Z) :
  (l, r, k) ∈ SimpleSGF.marks (tex2sgf tex)
  <-> exists (c : Z) (i : nat) (row : str),
        is_label c /\ l = [c]
        /\ clean_lines tex !! i = Some row /\ glyph_at c row k
        /\ r = 18 - Z.of_nat i.
Proof. apply tex2sgf_marks. Qed.

Lemma glyph_line_bounds (tex : str) (c : Z) (i : nat) (row : str) (k : Z) :
  clean_lines tex !! i = Some row -> glyph_at c row k ->
  18 - Z.of_nat (length (clean_lines tex)) < 18 - Z.of_nat i <= 18
  /\ 0 <= k.
Proof.
  intros Hi (pre & post & _ & ->).
  apply lookup_lt_Some in Hi. pose proof (cells_in_nonneg pre). lia.
Qed.

(** X7.  Whatever the text, no stone and no label of the parsed board
    lies above row 18 or left of column 0, and none lies more rows below
    row 18 than the cleaned diagram has lines. *)
Theorem tex2sgf_half_bounds (tex : str) (x : Z * Z) :
  x ∈ SimpleSGF.setup_black (tex2sgf tex)
  \/ x ∈ SimpleSGF.setup_white (tex2sgf tex)
  \/ (exists l, (l, x.1, x.2) ∈ SimpleSGF.marks (tex2sgf tex)) ->
  18 - Z.of_nat (length (clean_lines tex)) < x.1 <= 18 /\ 0 <= x.2.
Proof.
  intros [H|[H|[l H]]].
  - apply tex2sgf_black in H as (i & row & Hi & Hg & ->).
    exact (glyph_line_bounds tex 64 i row x.2 Hi Hg).
  - apply tex2sgf_white in H as (i & row & Hi & Hg & ->).
    exact (glyph_line_bounds tex 33 i row x.2 Hi Hg).
  - apply tex2sgf_marks in H as (c & i & row & _ & _ & Hi & Hg & ->).
    exact (glyph_line_bounds tex c i row x.2 Hi Hg).
Qed.

Lemma tex2sgf_half_bounds_far_right :
  (18, 19) ∈ SimpleSGF.setup_black (tex2sgf (py "+++++++++++++++++++@"))
  /\ 18 - Z.of_nat (length (clean_lines (py "+++++++++++++++++++@")))
     < (18, 19).1 <= 18
  /\ 0 <= (18, 19).2.
Proof.
  assert (Hin : (18, 19) ∈ SimpleSGF.setup_black
                             (tex2sgf (py "+++++++++++++++++++@"))).
  { replace (SimpleSGF.setup_black (tex2sgf (py "+++++++++++++++++++@")))
      with ({[ (18, 19) ]} : gset (Z * Z)) by (vm_compute; reflexivity).
    apply elem_of_singleton. reflexivity. }
  split; [exact Hin|].
  exact (tex2sgf_half_bounds (py "+++++++++++++++++++@") (18, 19)
           (or_introl Hin)).
Defined.

Section GameFrame.

Context {A : Type}.
Variable f : SimpleSGF.t -> A.
Hypothesis f_add_label : forall g l r k, f (SimpleSGF.add_label g l r k) = f g.

Lemma walk_symbol_frame (row_num : Z) (st : walk) (c : Z) :
  f (game (walk_symbol row_num st c)) = f (game st).
Proof.
  unfold walk_symbol. rewrite contains_stone_glyph.
  destruct (contains [c] (py "A-Z")), (is_stone c) eqn:Hs; cbn;
    rewrite ?f_add_label; try reflexivity;
    destruct (mapping_stone c Hs) as [k ->]; destruct k; cbn;
    rewrite ?f_add_label; reflexivity.
Qed.

Lemma walk_rows_frame (lines : list str) (row_num : Z) (st : walk) :
  f (game (walk_rows row_num st lines)) = f (game st).
Proof.
  revert row_num st.
  induction lines as [|row lines IH]; intros row_num st; cbn [walk_rows];
    [reflexivity|].
  rewrite IH. unfold walk_row.
  set (st0 := {| game := game st; setup_of_black := setup_of_black st;
                 setup_of_white := setup_of_white st; col_num := 0 |}).
  change (f (game st)) with (f (game st0)). clearbody st0. revert st0.
  induction row as [|d row IHrow]; intros st0; cbn [fold_left];
    [reflexivity|].
  rewrite IHrow. apply walk_symbol_frame.
Qed.

End GameFrame.

Lemma tex2sgf_fields (tex : str) :
  SimpleSGF.size (tex2sgf tex) = 19
  /\ SimpleSGF.player (tex2sgf tex) = py "B"
  /\ SimpleSGF.comment (tex2sgf tex) = None.
Proof.
  unfold tex2sgf.
  cbn [SimpleSGF.set_setup_stones SimpleSGF.size SimpleSGF.player
       SimpleSGF.comment].
  rewrite (walk_rows_frame SimpleSGF.size) by reflexivity.
  rewrite (walk_rows_frame SimpleSGF.player) by reflexivity.
  rewrite (walk_rows_frame SimpleSGF.comment) by reflexivity.
  repeat split.
Qed.

(** X8.  The parser decides neither the size nor the player nor the
    comment: every parsed board has size 19, Black to play and no
    comment, whatever the text. *)
Theorem tex2sgf_frame (tex : str) :
  SimpleSGF.size (tex2sgf tex) = 19
  /\ SimpleSGF.player (tex2sgf tex) = py "B"
  /\ SimpleSGF.comment (tex2sgf tex) = None.
Proof. apply tex2sgf_fields. Qed.

(** ** The parsed board and the 19 x 19 board *)

Lemma coords_in_range_elements (g : SimpleSGF.t) :
  forallb (fun x : Z * Z => bool_decide (0 <= x.1 < SimpleSGF.size g
                                        /\ 0 <= x.2 < SimpleSGF.size g))
    (elements (SimpleSGF.setup_black g)
     ++ elements (SimpleSGF.setup_white g)
     ++ map (fun y : str * Z * Z => (y.1.2, y.2))
          (elements (SimpleSGF.marks g))) = true ->
  coords_in_range g.
Proof.
  intros H. rewrite forallb_forall in H.
  assert (Hin : forall x,
            x ∈ elements (SimpleSGF.setup_black g)
                ++ elements (SimpleSGF.setup_white g)
                ++ map (fun y : str * Z * Z => (y.1.2, y.2))
                     (elements (SimpleSGF.marks g)) ->
            0 <= x.1 < SimpleSGF.size g /\ 0 <= x.2 < SimpleSGF.size g).
  { intros x Hx. apply list_elem_of_In in Hx.
    apply (bool_decide_unpack _), Is_true_true, H, Hx. }
  split; [|split].
  - intros x Hx. apply Hin, elem_of_app. left. apply elem_of_elements, Hx.
  - intros x Hx. apply Hin, elem_of_app. right. apply elem_of_app. left.
    apply elem_of_elements, Hx.
  - intros y Hy. apply (Hin (y.1.2, y.2)), elem_of_app. right.
    apply elem_of_app. right.
    apply (list_elem_of_fmap_2 (fun y : str * Z * Z => (y.1.2, y.2))).
    apply elem_of_elements, Hy.
Qed.

(** C5, as amended.  The parser checks no bound, and the parsed board
    lies on the board exactly when every stone glyph and every label
    character of the cleaned diagram stands on one of its first 19 lines,
    with fewer than 19 characters other than stone glyphs before it on
    its line. *)
Theorem tex2sgf_coords_in_range (tex : str) :
  coords_in_range (tex2sgf tex)
  <-> forall (i : nat) (row : str) (c k : Z),
        clean_lines tex !! i = Some row ->
        c = 64 \/ c = 33 \/ is_label c ->
        glyph_at c row k ->
        (i < 19)%nat /\ k < 19.
Proof.
  destruct (tex2sgf_fields tex) as (Hsize & _).
  unfold coords_in_range. rewrite Hsize. split.
  - intros (Hb & Hw & Hm) i row c k Hi Hc Hg.
    destruct Hc as [->|[->|Hc]].
    + assert (Hin : (18 - Z.of_nat i, k) ∈ SimpleSGF.setup_black (tex2sgf tex))
        by (apply tex2sgf_black; exists i, row; auto).
      apply Hb in Hin. cbn in Hin. lia.
    + assert (Hin : (18 - Z.of_nat i, k) ∈ SimpleSGF.setup_white (tex2sgf tex))
        by (apply tex2sgf_white; exists i, row; auto).
      apply Hw in Hin. cbn in Hin. lia.
    + assert (Hin : ([c], 18 - Z.of_nat i, k) ∈ SimpleSGF.marks (tex2sgf tex))
        by (apply tex2sgf_marks; exists c, i, row; auto).
      apply Hm in Hin. cbn in Hin. lia.
  - intros Hall. split; [|split].
    + intros x Hx. apply tex2sgf_black in Hx as (i & row & Hi & Hg & Hx).
      destruct (glyph_line_bounds tex 64 i row x.2 Hi Hg) as [_ H0].
      destruct (Hall i row 64 x.2 Hi (or_introl eq_refl) Hg). lia.
    + intros x Hx. apply tex2sgf_white in Hx as (i & row & Hi & Hg & Hx).
      destruct (glyph_line_bounds tex 33 i row x.2 Hi Hg) as [_ H0].
      destruct (Hall i row 33 x.2 Hi (or_intror (or_introl eq_refl)) Hg). lia.
    + intros [[l r] k] Hy. cbn [fst snd].
      apply tex2sgf_marks in Hy as (c & i & row & Hc & _ & Hi & Hg & ->).
      destruct (glyph_line_bounds tex c i row k Hi Hg) as [_ H0].
      destruct (Hall i row c k Hi (or_intror (or_intror Hc)) Hg). lia.
Qed.

(** Three diagrams that lie on the board: a lone stone glyph, two lines
    that end in a stone glyph, and 19 lines each closed by a line
    break. *)
Lemma tex2sgf_coords_in_range_samples :
  Forall (fun tex =>
            coords_in_range (tex2sgf tex)
            /\ forall (i : nat) (row : str) (c k : Z),
                 clean_lines tex !! i = Some row ->
                 c = 64 \/ c = 33 \/ is_label c ->
                 glyph_at c row k ->
                 (i < 19)%nat /\ k < 19)
    [py "@"; py "@!" ++ [nl] ++ py "!@";
     concat (repeat (py "\- @+A" ++ [nl]) 19)].
Proof.
  assert (Hall : forall tex,
            coords_in_range (tex2sgf tex) ->
            coords_in_range (tex2sgf tex)
            /\ forall (i : nat) (row : str) (c k : Z),
                 clean_lines tex !! i = Some row ->
                 c = 64 \/ c = 33 \/ is_label c ->
                 glyph_at c row k ->
                 (i < 19)%nat /\ k < 19).
  { intros tex H. split; [exact H|].
    exact (proj1 (tex2sgf_coords_in_range tex) H). }
  constructor; [|constructor; [|constructor; [|constructor]]];
    apply Hall, coords_in_range_elements; vm_compute; reflexivity.
Defined.

(** C5, as stated, fails: a stone glyph after nineteen empty points is
    recorded in column 19, off the board. *)
Lemma stone_in_column_19 :
  ~ coords_in_range (tex2sgf (py "+++++++++++++++++++@")).
Proof.
  intros (Hb & _). specialize (Hb (18, 19)).
  assert (Hin : (18, 19) ∈ SimpleSGF.setup_black
                             (tex2sgf (py "+++++++++++++++++++@"))).
  { replace (SimpleSGF.setup_black (tex2sgf (py "+++++++++++++++++++@")))
      with ({[ (18, 19) ]} : gset (Z * Z)) by (vm_compute; reflexivity).
    apply elem_of_singleton. reflexivity. }
  assert (Hs : SimpleSGF.size (tex2sgf (py "+++++++++++++++++++@")) = 19)
    by (vm_compute; reflexivity).
  apply Hb in Hin. rewrite Hs in Hin. cbn in Hin. lia.
Qed.

(** ** The serializer, continued *)

Lemma for_each_map {A B : Type} (f : A -> result B) (h : A -> B)
    (xs : list A) :
  (forall x, x ∈ xs -> f x = Ok (h x)) -> for_each f xs = Ok (map h xs).
Proof.
  induction xs as [|x xs IH]; intros H; cbn; [reflexivity|].
  rewrite (H x) by apply list_elem_of_here. cbn.
  rewrite IH by (intros y Hy; apply H, list_elem_of_further, Hy).
  reflexivity.
Qed.

Lemma encode_char_ok (c : Z) :
  encodable c -> exists u, encode_char c = Ok u.
Proof.
  unfold encodable, encode_char. intros H.
  repeat case_bool_decide; eauto. tauto.
Qed.

Lemma encode_utf8_ok (s : str) :
  Forall encodable s -> exists data, encode_utf8 s = Ok data.
Proof.
  unfold encode_utf8. induction 1 as [|c s Hc _ IH]; cbn; [eauto|].
  destruct (encode_char_ok c Hc) as [u ->]. cbn.
  destruct (for_each encode_char s) as [us|e]; cbn in *; [eauto|].
  destruct IH as [? IH]. discriminate.
Qed.

Lemma encode_char_surrogate (c : Z) :
  ~ encodable c -> encode_char c = Raise UnicodeEncodeError.
Proof.
  unfold encodable, encode_char. intros H.
  repeat case_bool_decide; try reflexivity; exfalso; apply H; lia.
Qed.

Lemma ascii_encodable (c : Z) : 0 <= c < 128 -> encodable c.
Proof. unfold encodable. lia. Qed.

Lemma py_ascii_range (s : string) : Forall (fun c => 0 <= c < 256) (py s).
Proof.
  induction s as [|a s IH]; cbn; constructor; [|exact IH].
  unfold ord_ascii. pose proof (N_ascii_bounded a). lia.
Qed.

Lemma py_encodable (s : string) : Forall encodable (py s).
Proof.
  eapply Forall_impl; [apply py_ascii_range|].
  intros c Hc. unfold encodable. cbn in Hc. lia.
Qed.

Lemma concat_encodable {A : Type} (h : A -> str) (xs : list A) :
  (forall x, x ∈ xs -> Forall encodable (h x)) ->
  Forall encodable (join (map h xs)).
Proof.
  unfold join. induction xs as [|x xs IH]; intros H; cbn; [constructor|].
  apply Forall_app. split; [apply H, list_elem_of_here|].
  apply IH. intros y Hy. apply H, list_elem_of_further, Hy.
Qed.

Lemma coord2letter_letters (g : SimpleSGF.t) (row col : Z) :
  SimpleSGF.size g <= 55199 ->
  0 <= row < SimpleSGF.size g -> 0 <= col < SimpleSGF.size g ->
  SimpleSGF.coord2letter g row col = Ok (letters g row col)
  /\ Forall encodable (letters g row col).
Proof.
  intros Hsize Hrow Hcol. unfold SimpleSGF.coord2letter, chr, letters.
  rewrite !bool_decide_eq_true_2 by lia. split; [reflexivity|].
  repeat constructor; unfold encodable; lia.
Qed.

Lemma fair_member {A : Type} `{Countable A} (iter : gset A -> list A)
    (s : gset A) (x : A) :
  fair iter -> x ∈ iter s -> x ∈ s.
Proof.
  intros Hfair Hx. rewrite (Hfair s) in Hx.
  apply elem_of_elements in Hx. exact Hx.
Qed.

Lemma join_Forall {A : Type} (P : Z -> Prop) (h : A -> str) (xs : list A) :
  (forall x, x ∈ xs -> Forall P (h x)) -> Forall P (join (map h xs)).
Proof.
  unfold join. induction xs as [|x xs IH]; intros H; cbn; [constructor|].
  apply Forall_app. split; [apply H, list_elem_of_here|].
  apply IH. intros y Hy. apply H, list_elem_of_further, Hy.
Qed.

Section SerializeFacts.

Variable g : SimpleSGF.t.
Hypothesis size_small : SimpleSGF.size g <= 55199.

Local Abbreviation point_text :=
  (fun x : Z * Z => py "[" ++ letters g x.1 x.2 ++ py "]").
Local Abbreviation mark_text :=
  (fun y : str * Z * Z =>
     py "[" ++ letters g y.1.2 y.2 ++ py ":" ++ y.1.1 ++ py "]").

Lemma points_ok (iter : gset (Z * Z) -> list (Z * Z)) (s : gset (Z * Z)) :
  fair iter ->
  (forall x, x ∈ s -> 0 <= x.1 < SimpleSGF.size g
                      /\ 0 <= x.2 < SimpleSGF.size g) ->
  for_each (SimpleSGF.point_item g) (iter s) = Ok (map point_text (iter s))
  /\ Forall encodable (join (map point_text (iter s))).
Proof.
  intros Hfair Hs. split.
  - apply for_each_map. intros x Hx.
    destruct (Hs x (fair_member iter s x Hfair Hx)) as [Hr Hc].
    unfold SimpleSGF.point_item.
    rewrite (proj1 (coord2letter_letters g x.1 x.2 size_small Hr Hc)).
    reflexivity.
  - apply join_Forall. intros x Hx.
    destruct (Hs x (fair_member iter s x Hfair Hx)) as [Hr Hc]. cbn beta.
    repeat (apply Forall_app; split); try apply py_encodable.
    apply (coord2letter_letters g x.1 x.2 size_small Hr Hc).
Qed.

Lemma marks_ok (iter : gset (str * Z * Z) -> list (str * Z * Z)) :
  fair iter -> coords_in_range g ->
  for_each (SimpleSGF.mark_item g) (iter (SimpleSGF.marks g))
  = Ok (map mark_text (iter (SimpleSGF.marks g))).
Proof.
  intros Hfair (_ & _ & Hm). apply for_each_map. intros y Hy.
  destruct (Hm y (fair_member iter _ y Hfair Hy)) as [Hr Hc].
  unfold SimpleSGF.mark_item.
  rewrite (proj1 (coord2letter_letters g y.1.2 y.2 size_small Hr Hc)).
  reflexivity.
Qed.

Lemma marks_encodable (iter : gset (str * Z * Z) -> list (str * Z * Z)) :
  fair iter -> coords_in_range g -> texts_encodable g ->
  Forall encodable (join (map mark_text (iter (SimpleSGF.marks g)))).
Proof.
  intros Hfair (_ & _ & Hm) (_ & _ & Ht). apply join_Forall. intros y Hy.
  pose proof (fair_member iter _ y Hfair Hy) as Hin.
  destruct (Hm y Hin) as [Hr Hc]. cbn beta.
  repeat (apply Forall_app; split); try apply py_encodable.
  - apply (coord2letter_letters g y.1.2 y.2 size_small Hr Hc).
  - apply Ht, Hin.
Qed.

Variable o : orders.
Hypothesis fair_o : fair_orders o.
Hypothesis in_range : coords_in_range g.

Lemma serialize_text_record :
  SimpleSGF.serialize_text o g
  = Ok (record_text (SimpleSGF.size g) (sections o g)).
Proof.
  destruct fair_o as (Fb & Fw & Fm). destruct in_range as (Hb & Hw & Hl).
  destruct (points_ok (iter_black o) _ Fb Hb) as [Eb _].
  destruct (points_ok (iter_white o) _ Fw Hw) as [Ew _].
  pose proof (marks_ok (iter_marks o) Fm in_range) as Em.
  unfold SimpleSGF.serialize_text, record_text, sections.
  rewrite Eb, Ew, Em.
  destruct (SimpleSGF.comment g) as [[|c0 c]|], (SimpleSGF.player g) as [|p0 p],
    (bool_decide (SimpleSGF.setup_black g = ∅)),
    (bool_decide (SimpleSGF.setup_white g = ∅)),
    (bool_decide (SimpleSGF.marks g = ∅));
    cbn [mbind result_bind mret result_ret map concat];
    change (py "(;FF[4]GM[1]SZ[")
      with (py "(" ++ py ";FF[4]GM[1]" ++ py "SZ[");
    change (py "CA[UTF-8])") with (py "CA[UTF-8]" ++ py ")");
    f_equal;
    repeat first [rewrite <- !app_assoc | rewrite !app_nil_r
                 | progress cbn [app map concat]];
    reflexivity.
Qed.

Lemma sections_Forall (P : Z -> Prop) :
  (forall c, 32 <= c < 128 -> P c) ->
  (forall row col, 0 <= row < SimpleSGF.size g -> 0 <= col < SimpleSGF.size g
                   -> Forall P (letters g row col)) ->
  Forall P (SimpleSGF.player g) ->
  (forall c, SimpleSGF.comment g = Some c -> Forall P c) ->
  (forall y, y ∈ SimpleSGF.marks g -> Forall P y.1.1) ->
  Forall (Forall P) (sections o g).
Proof.
  intros Hprint Hletters Tp Tc Tl.
  assert (Hlit : forall s : string,
            forallb (fun c => bool_decide (32 <= c < 128)) (py s) = true ->
            Forall P (py s)).
  { intros s Hs. apply Forall_forall. intros c Hc. apply Hprint.
    rewrite forallb_forall in Hs. apply list_elem_of_In in Hc.
    apply (bool_decide_unpack _), Is_true_true, Hs, Hc. }
  destruct fair_o as (Fb & Fw & Fm). destruct in_range as (Hb & Hw & Hl).
  assert (Hpts : forall iter s, fair iter ->
            (forall x, x ∈ s -> 0 <= x.1 < SimpleSGF.size g
                                /\ 0 <= x.2 < SimpleSGF.size g) ->
            Forall P (join (map point_text (iter s)))).
  { intros iter s Hfair Hs. apply join_Forall. intros x Hx.
    destruct (Hs x (fair_member iter s x Hfair Hx)) as [Hr Hc]. cbn beta.
    repeat (apply Forall_app; split); try (apply Hlit; reflexivity).
    apply Hletters; assumption. }
  assert (Hmk : Forall P (join (map mark_text
                                  (iter_marks o (SimpleSGF.marks g))))).
  { apply join_Forall. intros y Hy.
    pose proof (fair_member _ _ y Fm Hy) as Hin.
    destruct (Hl y Hin) as [Hr Hc]. cbn beta.
    repeat (apply Forall_app; split); try (apply Hlit; reflexivity).
    - apply Hletters; assumption.
    - apply Tl, Hin. }
  assert (Tc' : match SimpleSGF.comment g with
                | Some c => Forall P c | None => True end).
  { destruct (SimpleSGF.comment g) as [c|]; [apply Tc; reflexivity|exact I]. }
  unfold sections.
  repeat (apply Forall_app; split).
  - destruct (SimpleSGF.comment g) as [[|c0 c]|]; constructor;
      [|constructor].
    repeat (apply Forall_app; split); try (apply Hlit; reflexivity). exact Tc'.
  - destruct (SimpleSGF.player g) as [|p0 p]; constructor; [|constructor].
    repeat (apply Forall_app; split); try (apply Hlit; reflexivity). exact Tp.
  - case_bool_decide; constructor; [|constructor].
    apply Forall_app. split; [apply Hlit; reflexivity|apply Hpts; assumption].
  - case_bool_decide; constructor; [|constructor].
    apply Forall_app. split; [apply Hlit; reflexivity|apply Hpts; assumption].
  - case_bool_decide; constructor; [|constructor].
    apply Forall_app. split; [apply Hlit; reflexivity|exact Hmk].
Qed.

Lemma record_text_Forall (P : Z -> Prop) (lines : list str) :
  (forall c, 32 <= c < 128 -> P c) -> P nl ->
  Forall P (str_of_int (SimpleSGF.size g)) ->
  Forall (Forall P) lines ->
  Forall P (record_text (SimpleSGF.size g) lines).
Proof.
  intros Hprint Hnl Hsize Hlines.
  assert (Hlit : forall s : string,
            forallb (fun c => bool_decide (32 <= c < 128)) (py s) = true ->
            Forall P (py s)).
  { intros s Hs. apply Forall_forall. intros c Hc. apply Hprint.
    rewrite forallb_forall in Hs. apply list_elem_of_In in Hc.
    apply (bool_decide_unpack _), Is_true_true, Hs, Hc. }
  unfold record_text.
  repeat (apply Forall_app; split); try (apply Hlit; reflexivity);
    try assumption.
  - induction Hlines as [|l lines Hline _ IH]; cbn; [constructor|].
    constructor; [exact Hnl|]. apply Forall_app. split; assumption.
  - constructor; [exact Hnl|constructor].
  - constructor; [exact Hnl|constructor].
Qed.

Lemma serialize_text_ok :
  texts_encodable g ->
  exists text,
    SimpleSGF.serialize_text o g = Ok text /\ Forall encodable text.
Proof.
  intros (Tp & Tc & Tl). eexists. split; [apply serialize_text_record|].
  apply record_text_Forall.
  - intros c Hc. unfold encodable. lia.
  - unfold encodable, nl. lia.
  - apply py_encodable.
  - apply sections_Forall; try assumption.
    + intros c Hc. unfold encodable. lia.
    + intros row col Hr Hc.
      apply (coord2letter_letters g row col size_small Hr Hc).
Qed.

End SerializeFacts.

Lemma serialize_ok (o : orders) (g : SimpleSGF.t) :
  fair_orders o ->
  SimpleSGF.size g <= 55199 -> coords_in_range g -> texts_encodable g ->
  exists data, SimpleSGF.serialize o g = Ok data.
Proof.
  intros Ho Hsize Hrange Htexts.
  destruct (serialize_text_ok g Hsize o Ho Hrange Htexts)
    as (text & Htext & Henc).
  unfold SimpleSGF.serialize. rewrite Htext. cbn.
  apply encode_utf8_ok, Henc.
Qed.


Lemma fair_elements {A : Type} `{Countable A} :
  fair (elements : gset A -> list A).
Proof. intros s. reflexivity. Qed.

Lemma fair_by_elements : fair_orders by_elements.
Proof. repeat split; apply fair_elements. Qed.

Lemma sample_board_in_range : coords_in_range sample_board.
Proof.
  unfold coords_in_range, sample_board; cbn.
  split; [|split]; intros x Hx; apply elem_of_singleton in Hx; subst x;
    cbn; lia.
Qed.

Lemma flip_colors_frame_sample :
  coords_in_range sample_board
  /\ SimpleSGF.setup_black (SimpleSGF.flip_colors sample_board)
     = {[ (15, 2) ]}
  /\ SimpleSGF.marks (SimpleSGF.flip_colors sample_board)
     = {[ (py "A", 3, 3) ]}
  /\ SimpleSGF.comment (SimpleSGF.flip_colors sample_board)
     = Some (py "1. black to play")
  /\ coords_in_range (SimpleSGF.flip_colors sample_board).
Proof.
  destruct (flip_colors_frame sample_board) as (_ & Hm & Hc & Hrange).
  split; [apply sample_board_in_range|].
  split; [reflexivity|]. split; [exact Hm|]. split; [exact Hc|].
  apply Hrange, sample_board_in_range.
Defined.

Lemma sample_board_encodable : texts_encodable sample_board.
Proof.
  split; [apply py_encodable|]. split.
  - intros c Hc. inversion Hc. exact (py_encodable "1. black to play").
  - intros y Hy. unfold sample_board in Hy. cbn in Hy.
    apply elem_of_singleton in Hy. subst y.
    exact (py_encodable "A").
Qed.

Lemma sample_board_serializes :
  exists data, SimpleSGF.serialize by_elements sample_board = Ok data.
Proof.
  apply (serialize_ok by_elements sample_board fair_by_elements);
    [cbn; lia| |].
  - apply sample_board_in_range.
  - apply sample_board_encodable.
Qed.




(** ** The merger and the serializer together *)
















(** ** The renderer adapter *)

Lemma foldr_min_least (x0 : Z) (xs : list (Z * Z)) :
  let m := foldr (fun y m => Z.min y.1 m) x0 xs in
  m <= x0 /\ (forall y, y ∈ xs -> m <= y.1)
  /\ (m = x0 \/ exists y, y ∈ xs /\ y.1 = m).
Proof.
  induction xs as [|y xs IH]; cbn.
  - split; [lia|]. split; [|auto].
    intros y Hy. apply elem_of_nil in Hy. destruct Hy.
  - destruct IH as (H0 & Hall & Hex). split; [lia|]. split.
    + intros z Hz. apply elem_of_cons in Hz as [->|Hz]; [lia|].
      specialize (Hall z Hz). lia.
    + destruct (Z.min_spec y.1 (foldr (fun y m => Z.min y.1 m) x0 xs))
        as [[_ ->]|[_ ->]].
      * right. exists y. split; [apply list_elem_of_here|reflexivity].
      * destruct Hex as [Hex|(z & Hz & Hzm)]; [auto|].
        right. exists z. split; [apply list_elem_of_further, Hz|exact Hzm].
Qed.

Lemma min_row_of_spec (moves : gset (Z * Z)) :
  (min_row_of moves = Raise ValueError <-> moves = ∅)
  /\ (forall m, min_row_of moves = Ok m ->
      (exists x, x ∈ moves /\ x.1 = m) /\ forall x, x ∈ moves -> m <= x.1).
Proof.
  unfold min_row_of. destruct (elements moves) as [|x xs] eqn:E.
  - apply elements_empty_inv in E. apply leibniz_equiv in E.
    split; [tauto|discriminate].
  - assert (Hin : forall y, y ∈ moves <-> y = x \/ y ∈ xs).
    { intros y. rewrite <- elem_of_elements, E, elem_of_cons. tauto. }
    split.
    + split; [discriminate|]. intros ->.
      rewrite elements_empty in E. discriminate.
    + intros m Hm. inversion Hm as [Hm']. clear Hm.
      destruct (foldr_min_least x.1 xs) as (H0 & Hall & Hex). split.
      * destruct Hex as [Hex|(y & Hy & Hym)].
        -- exists x. split; [apply Hin; auto|symmetry; exact Hex].
        -- exists y. split; [apply Hin; auto|exact Hym].
      * intros y Hy. apply Hin in Hy as [->|Hy]; [exact H0|apply Hall, Hy].
Qed.

Lemma min_row_of_nonempty (moves : gset (Z * Z)) :
  moves <> ∅ -> exists m, min_row_of moves = Ok m.
Proof.
  intros Hne. destruct (min_row_of moves) as [m|e] eqn:E; [eauto|].
  exfalso. apply Hne. apply (min_row_of_spec moves).
  unfold min_row_of in *. destruct (elements moves); [reflexivity|discriminate].
Qed.

(** X12.  [min_row_of] raises [ValueError] exactly on the empty set; on
    every other set it returns a row, which is the row of one of the
    points of the set and is not greater than the row of any of them. *)
Theorem min_row_of_least (moves : gset (Z * Z)) :
  (min_row_of moves = Raise ValueError <-> moves = ∅)
  /\ (moves = ∅
      \/ exists m, min_row_of moves = Ok m
                   /\ (exists x, x ∈ moves /\ x.1 = m)
                   /\ forall x, x ∈ moves -> m <= x.1)
  /\ (forall m, min_row_of moves = Ok m ->
      (exists x, x ∈ moves /\ x.1 = m) /\ forall x, x ∈ moves -> m <= x.1).
Proof.
  split; [apply min_row_of_spec|]. split; [|apply min_row_of_spec].
  destruct (decide (moves = ∅)) as [He|Hne]; [left; exact He|right].
  destruct (min_row_of_nonempty moves Hne) as [m Hm].
  exists m. split; [exact Hm|]. apply (min_row_of_spec moves), Hm.
Qed.

Lemma min_row_of_empty : min_row_of ∅ = Raise ValueError.
Proof. unfold min_row_of. rewrite elements_empty. reflexivity. Qed.

(** X13.  Asked for the row-only viewport of a board without stones,
    [render_sgf] raises [ValueError] (from [min] on an empty set) before
    any program is called. *)
Theorem render_sgf_row_only_without_stones (o : orders)
    (has_svgcleaner : bool) (g : SimpleSGF.t) (output_filename : path)
    (data : list Z) :
  SimpleSGF.setup_black g = ∅ -> SimpleSGF.setup_white g = ∅ ->
  SimpleSGF.serialize o g = Ok data ->
  render_sgf o has_svgcleaner g output_filename ROW_ONLY
  = ([], Raise ValueError).
Proof.
  intros Hb Hw Hdata. unfold render_sgf. rewrite Hdata, Hb, Hw.
  rewrite (left_id_L ∅ (∪)), min_row_of_empty. reflexivity.
Qed.

Lemma render_sgf_row_only_fresh_board :
  SimpleSGF.setup_black (SimpleSGF.init 19) = ∅
  /\ SimpleSGF.setup_white (SimpleSGF.init 19) = ∅
  /\ render_sgf by_elements false (SimpleSGF.init 19)
       (py "render", py "1.svg") ROW_ONLY
     = ([], Raise ValueError).
Proof.
  split; [reflexivity|]. split; [reflexivity|].
  apply (render_sgf_row_only_without_stones by_elements false
           (SimpleSGF.init 19) (py "render", py "1.svg")
           (py "(;FF[4]GM[1]SZ[19]" ++ [nl] ++ py "PL[B]" ++ [nl]
            ++ py "CA[UTF-8])" ++ [nl]));
    vm_compute; reflexivity.
Defined.

(** X14.  The row-only viewport of a 19 x 19 board with stones.  When
    the coordinates are on the board and the board serializes,
    [render_sgf] calls [sgf-render] once, with the viewport [aa-s?]
    whose last letter is one past the row letter of the lowest stone,
    capped at [s]; no stone's row letter lies beyond it.  The minifier
    is called afterwards when it is installed. *)
Theorem render_sgf_row_only_viewport (o : orders)
    (has_svgcleaner : bool) (g : SimpleSGF.t) (output_filename : path)
    (data : list Z) :
  SimpleSGF.size g = 19 -> coords_in_range g ->
  SimpleSGF.setup_black g ∪ SimpleSGF.setup_white g <> ∅ ->
  SimpleSGF.serialize o g = Ok data ->
  exists m,
    (exists x, x ∈ SimpleSGF.setup_black g ∪ SimpleSGF.setup_white g
               /\ x.1 = m)
    /\ (forall x, x ∈ SimpleSGF.setup_black g ∪ SimpleSGF.setup_white g ->
        m <= x.1 /\ 19 - x.1 - 1 + 97 <= Z.min (19 - m + 97) 115)
    /\ render_sgf o has_svgcleaner g output_filename
         ROW_ONLY
       = (Call [Arg (py "sgf-render"); ArgTemp data; Arg (py "--style");
                Arg (py "minimalist"); Arg (py "--no-board-labels");
                Arg (py "-o"); ArgPath output_filename;
                Arg (py "-r"); Arg (py "aa-s" ++ [Z.min (19 - m + 97) 115])]
          :: (if has_svgcleaner
              then [Call [Arg (py "svgcleaner"); Arg (py "--quiet");
                          ArgPath output_filename; ArgPath output_filename]]
              else []),
          Ok tt).
Proof.
  intros Hsize (Hb & Hw & _) Hne Hdata.
  destruct (min_row_of_nonempty _ Hne) as [m Hm].
  destruct (proj2 (min_row_of_spec _) m Hm) as [Hex Hleast].
  assert (Hrows : forall x,
            x ∈ SimpleSGF.setup_black g ∪ SimpleSGF.setup_white g ->
            0 <= x.1 < 19).
  { intros x Hx. rewrite <- Hsize.
    apply elem_of_union in Hx as [Hx|Hx]; [apply Hb, Hx|apply Hw, Hx]. }
  exists m. split; [exact Hex|]. split.
  - intros x Hx. specialize (Hleast x Hx). specialize (Hrows x Hx). lia.
  - destruct Hex as (x & Hx & Hxm). specialize (Hrows x Hx).
    assert (Hchr : chr (19 - m + 97) = Ok (19 - m + 97)).
    { unfold chr. rewrite !bool_decide_eq_true_2 by lia. reflexivity. }
    unfold render_sgf. rewrite Hdata. cbn zeta. rewrite Hm, Hsize.
    unfold mbind at 4. unfold result_bind. rewrite Hchr.
    destruct has_svgcleaner; reflexivity.
Qed.

Lemma render_sgf_row_only_viewport_sample :
  SimpleSGF.size sample_board = 19
  /\ SimpleSGF.setup_black sample_board ∪ SimpleSGF.setup_white sample_board
     <> ∅
  /\ exists data m,
      SimpleSGF.serialize by_elements sample_board = Ok data
      /\ render_sgf by_elements false sample_board
           (py "render", py "1.svg") ROW_ONLY
         = ([Call [Arg (py "sgf-render"); ArgTemp data; Arg (py "--style");
                   Arg (py "minimalist"); Arg (py "--no-board-labels");
                   Arg (py "-o"); ArgPath (py "render", py "1.svg");
                   Arg (py "-r");
                   Arg (py "aa-s" ++ [Z.min (19 - m + 97) 115])]],
            Ok tt).
Proof.
  assert (Hne : SimpleSGF.setup_black sample_board
                ∪ SimpleSGF.setup_white sample_board <> ∅).
  { intros H. assert (Hin : (3, 3) ∈ (∅ : gset (Z * Z))).
    { rewrite <- H. unfold sample_board; cbn. set_solver. }
    apply not_elem_of_empty in Hin. exact Hin. }
  split; [reflexivity|]. split; [exact Hne|].
  destruct sample_board_serializes as [data Hdata].
  destruct (render_sgf_row_only_viewport by_elements false sample_board
              (py "render", py "1.svg") data eq_refl sample_board_in_range
              Hne Hdata) as (m & _ & _ & Hrender).
  exists data, m. split; [exact Hdata|exact Hrender].
Defined.

(** ** The collection merger, continued *)

Lemma list_lt_irrefl (a : list Z) : list_lt a a = false.
Proof.
  induction a as [|x a IH]; cbn; [reflexivity|].
  rewrite bool_decide_eq_true_2 by reflexivity. exact IH.
Qed.

Lemma list_lt_key_neq (a b : list Z) : list_lt a b = true -> a <> b.
Proof. intros H ->. rewrite list_lt_irrefl in H. discriminate. Qed.

Section Stability.

Context {A : Type}.
Variable key : A -> list Z.
Variable k : list Z.

Local Abbreviation same_key := (fun x : A => key x = k).

Lemma filter_none (l : list A) :
  Forall (fun z => key z <> k) l -> filter same_key l = [].
Proof.
  induction 1 as [|z l Hz _ IH]; [reflexivity|].
  rewrite filter_cons, decide_False by exact Hz. exact IH.
Qed.

Lemma insort_same_key (x : A) (acc : list A) :
  StronglySorted (key_le key) acc ->
  filter same_key (insort key x acc)
  = filter same_key acc ++ filter same_key [x].
Proof.
  induction acc as [|y acc IH]; intros Hs; cbn [insort];
    [reflexivity|].
  apply StronglySorted_inv in Hs as [Hs Hall].
  destruct (list_lt (key x) (key y)) eqn:Hlt.
  - destruct (decide (key x = k)) as [Hx|Hx].
    + assert (Hnone : filter same_key (y :: acc) = []).
      { apply filter_none. constructor.
        - intros Hy. apply (list_lt_key_neq _ _ Hlt). congruence.
        - eapply Forall_impl; [exact Hall|]. intros z Hyz Hz.
          unfold key_le in Hyz. rewrite Hz, <- Hx, Hlt in Hyz.
          discriminate. }
      rewrite (filter_cons _ x), decide_True by exact Hx.
      rewrite Hnone. rewrite filter_cons, decide_True by exact Hx.
      reflexivity.
    + rewrite (filter_cons _ x), decide_False by exact Hx.
      rewrite (filter_cons _ x []), decide_False by exact Hx.
      rewrite filter_nil, app_nil_r. reflexivity.
  - rewrite (filter_cons _ y (insort key x acc)), (filter_cons _ y acc).
    rewrite IH by exact Hs.
    destruct (decide (key y = k)); reflexivity.
Qed.

Lemma fold_insort_same_key (xs acc : list A) :
  StronglySorted (key_le key) acc ->
  filter same_key (fold_left (fun acc x => insort key x acc) xs acc)
  = filter same_key acc ++ filter same_key xs.
Proof.
  revert acc. induction xs as [|x xs IH]; intros acc Hs; cbn [fold_left].
  - rewrite filter_nil, app_nil_r. reflexivity.
  - rewrite IH by (apply insort_sorted; exact Hs).
    rewrite insort_same_key by exact Hs.
    rewrite <- app_assoc, <- filter_app. reflexivity.
Qed.

Lemma sorted_same_key (xs : list A) :
  filter same_key (sorted key xs) = filter same_key xs.
Proof.
  unfold sorted. rewrite fold_insort_same_key by constructor.
  reflexivity.
Qed.

End Stability.

(** X15.  The merger's sort is stable: the files whose names embed the
    same integers are read in the order in which the directory lists
    them. *)
Theorem merge_order_stable (decimal : Z -> option Z)
    (listing : list (str * str)) (k : list Z) :
  filter (fun f => sort_key decimal f.1 = k) (merge_order decimal listing)
  = filter (fun f => sort_key decimal f.1 = k) (glob_sgf listing).
Proof. unfold merge_order. apply sorted_same_key. Qed.

Lemma rfind_from_absent (c i : Z) (s : str) :
  c ∉ s -> rfind_from c i s = -1.
Proof.
  revert i. induction s as [|x s IH]; intros i H; cbn; [reflexivity|].
  apply not_elem_of_cons in H as [Hx Hs].
  rewrite IH by exact Hs.
  rewrite bool_decide_eq_true_2 by reflexivity.
  rewrite bool_decide_eq_false_2 by congruence. reflexivity.
Qed.

Lemma rfind_from_last (c i : Z) (s t : str) :
  0 <= i -> c ∉ t ->
  rfind_from c i (s ++ c :: t) = i + Z.of_nat (length s).
Proof.
  revert i. induction s as [|x s IH]; intros i Hi Ht; cbn [app length].
  - cbn. rewrite rfind_from_absent by exact Ht.
    rewrite !bool_decide_eq_true_2 by reflexivity. lia.
  - cbn [rfind_from]. rewrite IH by (lia || exact Ht).
    rewrite bool_decide_eq_false_2 by lia. lia.
Qed.

Lemma stem_sgf (s : str) : s <> [] -> stem (s ++ py ".sgf") = s.
Proof.
  intros Hs. unfold stem.
  change (py ".sgf") with (46 :: py "sgf").
  rewrite rfind_from_last; [|lia|].
  - rewrite length_app. change (length (46 :: py "sgf")) with 4%nat.
    destruct s as [|c s]; [congruence|]. cbn [length].
    rewrite bool_decide_eq_true_2 by lia.
    rewrite Z.add_0_l, Nat2Z.id.
    exact (take_app_length (c :: s) (46 :: py "sgf")).
  - intros H. repeat (apply elem_of_cons in H as [H|H]; [discriminate|]).
    apply elem_of_nil in H. exact H.
Qed.

(** X16.  The sort key leaves the extension out.  Whatever characters
    the interpreter's Unicode database counts as decimal digits, for a
    file [s.sgf] with a non-empty [s] the key is the list of the integers
    written in [s], one for each maximal run of such digits, each read in
    base ten from the values the database gives its digits; when the
    database gives the ASCII characters their usual reading, the file
    named [.sgf] alone has the empty key. *)
Theorem sort_key_of_sgf_name (decimal : Z -> option Z) (s : str) :
  s <> [] ->
  stem (s ++ py ".sgf") = s
  /\ sort_key decimal (s ++ py ".sgf")
     = map (int_of_digits decimal) (findall_digits decimal s)
  /\ (agrees_on_ascii decimal -> sort_key decimal (py ".sgf") = []).
Proof.
  intros Hs. split; [apply stem_sgf, Hs|]. split.
  - unfold sort_key. rewrite stem_sgf by exact Hs. reflexivity.
  - intros Hd. rewrite (ascii_name ".sgf"); [reflexivity| |exact Hd].
    apply ascii_literal. reflexivity.
Qed.

Lemma sort_key_of_sgf_name_sample :
  py "vol 2 - problem " ++ [1633; 1632] <> []
  /\ stem ((py "vol 2 - problem " ++ [1633; 1632]) ++ py ".sgf")
     = py "vol 2 - problem " ++ [1633; 1632]
  /\ sort_key sample_decimal
       ((py "vol 2 - problem " ++ [1633; 1632]) ++ py ".sgf") = [2; 10]
  /\ sort_key sample_decimal (py ".sgf") = [].
Proof.
  assert (Hs : py "vol 2 - problem " ++ [1633; 1632] <> []) by discriminate.
  destruct (sort_key_of_sgf_name sample_decimal _ Hs) as (Hstem & Hkey & Hext).
  split; [exact Hs|]. split; [exact Hstem|]. split.
  - rewrite Hkey. vm_compute. reflexivity.
  - apply Hext, sample_decimal_agrees.
Defined.

(** ** The batch extractor, continued *)

Lemma zip_take_min {A B : Type} (a : list A) (b : list B) :
  zip (take (min (length a) (length b)) a) (take (min (length a) (length b)) b)
  = zip a b.
Proof.
  revert b. induction a as [|x a IH]; intros [|y b]; cbn; try reflexivity.
  f_equal. apply IH.
Qed.

(** X17.  The diagrams and the titles are paired in order and the
    longer of the two lists is cut: what comes after the last pair, a
    diagram without title or a title without diagram, has no effect. *)
Theorem extract_sgf_ignores_surplus
    (orders_of : Z -> orders) (open_error : Z -> path -> option exn)
    (has_svgcleaner : bool) (sgf_output_dir : str)
    (render_output_dir : option str) (filename : list piece)
    (normalize : bool) (boards titles : list str) :
  let n := min (length boards) (length titles) in
  extract_sgf orders_of open_error has_svgcleaner sgf_output_dir
    render_output_dir filename normalize boards titles
  = extract_sgf orders_of open_error has_svgcleaner sgf_output_dir
      render_output_dir filename normalize (take n boards) (take n titles).
Proof.
  intros n. subst n. unfold extract_sgf. rewrite zip_take_min. reflexivity.
Qed.

Section PlainRun.

Variable orders_of : Z -> orders.
Variable open_error : Z -> path -> option exn.
Variable has_svgcleaner : bool.
Variable sgf_output_dir : str.
Variable filename : list piece.

(** Without normalization the problem is the board [titled_game], opened,
    serialized, written and, when asked, rendered. *)
Lemma extract_problem_steps (render_output_dir : option str) (i : Z)
    (board title : str) :
  extract_problem orders_of open_error has_svgcleaner sgf_output_dir
    render_output_dir filename false i board title
  = (let p := sgf_path sgf_output_dir filename i title in
     _ ← open_wb open_error i p;
     data ← lift (SimpleSGF.serialize (orders_of i) (titled_game board title));
     _ ← emit (Write p data);
     match render_output_dir with
     | Some dir =>
         render_sgf (orders_of i) has_svgcleaner (titled_game board title)
           (dir, format filename (i + 1) (strip title) ++ py ".svg") ROW_ONLY
     | None => mret tt
     end).
Proof.
  unfold extract_problem, titled_game, sgf_path.
  change (SimpleSGF.set_player (tex2sgf board) (py "W"))
    with (Ok (SimpleSGF.with_player (tex2sgf board) (py "W"))).
  destruct (contains (py "white to play") (strip title)).
  - etransitivity;
      [apply (io_bind_lift_ok
                (strip title, SimpleSGF.with_player (tex2sgf board) (py "W")))|].
    reflexivity.
  - etransitivity; [apply (io_bind_lift_ok (strip title, tex2sgf board))|].
    reflexivity.
Qed.

Lemma open_wb_cases (i : Z) (p : path) :
((0 ∉ p.1 ++ p.2) /\ open_error i p = None
   /\ open_wb open_error i p = ([Open p], Ok tt))
  \/ ((0 ∈ p.1 ++ p.2 \/ open_error i p <> None)
      /\ exists e, open_wb open_error i p = ([], Raise e)).
Proof.
  unfold open_wb. case_bool_decide as Hnul.
  - right. split; [left; exact Hnul|]. exists ValueError. reflexivity.
  - destruct (open_error i p) as [e|] eqn:He.
    + right. split; [right; discriminate|]. exists e. reflexivity.
    + left. repeat split; assumption.
Qed.





End PlainRun.



Section NormalizeFlag.

Variable orders_of : Z -> orders.
Variable open_error : Z -> path -> option exn.
Variable has_svgcleaner : bool.
Variable sgf_output_dir : str.
Variable render_output_dir : option str.
Variable filename : list piece.

Lemma extract_problem_normalize_other (i : Z) (board title : str) :
  contains (py "white to play") (strip title) = false ->
  extract_problem orders_of open_error has_svgcleaner sgf_output_dir
    render_output_dir filename true i board title
  = extract_problem orders_of open_error has_svgcleaner sgf_output_dir
      render_output_dir filename false i board title.
Proof. intros H. unfold extract_problem. rewrite H. reflexivity. Qed.

Lemma extract_problem_normalize_white (i : Z) (board title : str) :
  contains (py "white to play") (strip title) = true ->
  extract_problem orders_of open_error has_svgcleaner sgf_output_dir
    render_output_dir filename true i board title
  = ([], Raise AttributeError).
Proof. intros H. unfold extract_problem. rewrite H. reflexivity. Qed.

Lemma extract_loop_normalize_completes (pairs : list (str * str)) (i : Z) :
  (extract_loop orders_of open_error has_svgcleaner sgf_output_dir
     render_output_dir filename true i pairs).2 = Ok tt ->
  extract_loop orders_of open_error has_svgcleaner sgf_output_dir
    render_output_dir filename true i pairs
  = extract_loop orders_of open_error has_svgcleaner sgf_output_dir
      render_output_dir filename false i pairs
  /\ Forall (fun bt => contains (py "white to play") (strip bt.2) = false)
       pairs.
Proof.
  revert i. induction pairs as [|[board title] pairs IH]; intros i;
    cbn [extract_loop]; [split; [reflexivity|constructor]|].
  destruct (contains (py "white to play") (strip title)) eqn:Hw.
  - rewrite extract_problem_normalize_white by exact Hw.
    unfold mbind, io_bind. cbn [fst snd]. discriminate.
  - rewrite extract_problem_normalize_other by exact Hw.
    unfold mbind, io_bind.
    destruct (extract_problem orders_of open_error has_svgcleaner
                sgf_output_dir render_output_dir filename false i board title)
      as [tr [[]|e]]; cbn [fst snd]; [|discriminate].
    intros Hok. destruct (IH (i + 1) Hok) as [-> Hall].
    split; [reflexivity|]. constructor; [exact Hw|exact Hall].
Qed.

End NormalizeFlag.

(** X19.  The [normalize] option never normalizes anything: a run with
    it that completes has done exactly what the run without it does,
    and no title of it (once stripped) contains "white to play". *)
Theorem normalize_changes_nothing
    (orders_of : Z -> orders) (open_error : Z -> path -> option exn)
    (has_svgcleaner : bool) (sgf_output_dir : str)
    (render_output_dir : option str) (filename : list piece)
    (boards titles : list str) :
  (extract_sgf orders_of open_error has_svgcleaner sgf_output_dir
     render_output_dir filename true boards titles).2 = Ok tt ->
  extract_sgf orders_of open_error has_svgcleaner sgf_output_dir
    render_output_dir filename true boards titles
  = extract_sgf orders_of open_error has_svgcleaner sgf_output_dir
      render_output_dir filename false boards titles
  /\ Forall (fun bt => contains (py "white to play") (strip bt.2) = false)
       (zip boards titles).
Proof. unfold extract_sgf. apply extract_loop_normalize_completes. Qed.

Lemma normalize_changes_nothing_sample :
  (extract_sgf (fun _ => by_elements) no_open_error false (py "out") None default_filename
     true [py "\- @+"] [py "1. black to play"]).2 = Ok tt
  /\ extract_sgf (fun _ => by_elements) no_open_error false (py "out") None default_filename
       true [py "\- @+"] [py "1. black to play"]
     = extract_sgf (fun _ => by_elements) no_open_error false (py "out") None default_filename
         false [py "\- @+"] [py "1. black to play"].
Proof.
  assert (Hok : (extract_sgf (fun _ => by_elements) no_open_error false (py "out") None
                   default_filename true [py "\- @+"]
                   [py "1. black to play"]).2 = Ok tt)
    by (vm_compute; reflexivity).
  split; [exact Hok|].
  exact (proj1 (normalize_changes_nothing (fun _ => by_elements)
                  no_open_error false (py "out") None default_filename
                  _ _ Hok)).
Defined.

Section RenderingRun.

Variable orders_of : Z -> orders.
Variable open_error : Z -> path -> option exn.
Variable has_svgcleaner : bool.
Variable sgf_output_dir render_dir : str.
Variable filename : list piece.

Lemma render_sgf_no_stones (o : orders) (g : SimpleSGF.t)
    (output_filename : path) (data : list Z) :
  SimpleSGF.setup_black g = ∅ -> SimpleSGF.setup_white g = ∅ ->
  SimpleSGF.serialize o g = Ok data ->
  render_sgf o has_svgcleaner g output_filename ROW_ONLY
  = ([], Raise ValueError).
Proof.
  intros Hb Hw Hdata. unfold render_sgf. rewrite Hdata, Hb, Hw.
  rewrite (left_id_L ∅ (∪)), min_row_of_empty. reflexivity.
Qed.

Lemma titled_game_stones (board title : str) :
  SimpleSGF.setup_black (titled_game board title)
  = SimpleSGF.setup_black (tex2sgf board)
  /\ SimpleSGF.setup_white (titled_game board title)
     = SimpleSGF.setup_white (tex2sgf board).
Proof.
  unfold titled_game.
  destruct (contains (py "white to play") (strip title)); split; reflexivity.
Qed.

Lemma extract_problem_render_no_stones (i : Z) (board title : str) :
  SimpleSGF.setup_black (tex2sgf board) = ∅ ->
  SimpleSGF.setup_white (tex2sgf board) = ∅ ->
  exists tr e,
    extract_problem orders_of open_error has_svgcleaner sgf_output_dir
      (Some render_dir) filename false i board title
    = (tr, Raise e)
    /\ tr `prefix_of` sgf_events orders_of sgf_output_dir filename i board title
    /\ (problem_writes orders_of open_error sgf_output_dir filename
          i board title ->
        tr = sgf_events orders_of sgf_output_dir filename i board title
        /\ e = ValueError).
Proof.
  intros Hb Hw.
  destruct (titled_game_stones board title) as [Eb Ew].
  rewrite <- Eb in Hb. rewrite <- Ew in Hw.
  rewrite extract_problem_steps. unfold sgf_events, problem_writes.
  cbn zeta.
  set (p := sgf_path sgf_output_dir filename i title).
  destruct (open_wb_cases open_error i p)
    as [(Hnul & Hopen & ->)|[Hbad [e ->]]].
  - destruct (SimpleSGF.serialize (orders_of i) (titled_game board title))
      as [data|e] eqn:Hdata.
    + exists [Open p; Write p data], ValueError.
      split; [|split; [exists []; rewrite app_nil_r; reflexivity|
                       intros _; split; reflexivity]].
      unfold mbind, mret, io_bind, io_ret, lift, emit. cbn [fst snd].
      rewrite (render_sgf_no_stones _ _ _ data Hb Hw Hdata). reflexivity.
    + exists [Open p], e.
      split; [reflexivity|]. split; [eexists; reflexivity|].
      intros (_ & _ & data & Hd). discriminate.
  - exists [], e. split; [reflexivity|]. split; [eexists; reflexivity|].
    intros (Hnul & Hopen & _). destruct Hbad; contradiction.
Qed.

(** X20.  A rendering run stops at the first diagram without stones.
    When the problems before it have passed, the run raises at this
    problem, whatever its title and the answers of the file system are:
    what the run does for it is a beginning of opening its SGF file and
    writing the board to it, no external program is called for it and no
    later problem is read.  When the problem can be written (its path
    holds no NUL character, the file system opens it and the board
    serializes), the run opens and writes its SGF file and then raises
    [ValueError]: the row-only viewport takes the minimum of an empty
    set. *)
Theorem rendering_run_stops_without_stones
    (boards titles : list str) (pre post : list (str * str))
    (board title : str) :
  zip boards titles = pre ++ (board, title) :: post ->
  SimpleSGF.setup_black (tex2sgf board) = ∅ ->
  SimpleSGF.setup_white (tex2sgf board) = ∅ ->
  forall before,
    extract_loop orders_of open_error has_svgcleaner sgf_output_dir
      (Some render_dir) filename false 0 pre = (before, Ok tt) ->
    let i := Z.of_nat (length pre) in
    exists tr e,
      extract_sgf orders_of open_error has_svgcleaner sgf_output_dir
        (Some render_dir) filename false boards titles
      = (before ++ tr, Raise e)
      /\ tr `prefix_of`
           sgf_events orders_of sgf_output_dir filename i board title
      /\ Forall no_call tr
      /\ (problem_writes orders_of open_error sgf_output_dir filename
            i board title ->
          tr = sgf_events orders_of sgf_output_dir filename i board title
          /\ e = ValueError).
Proof.
  intros Hzip Hb Hw before Hpre i.
  destruct (extract_problem_render_no_stones i board title Hb Hw)
    as (tr & e & Hrun & Hprefix & Hexact).
  exists tr, e. split; [|split; [exact Hprefix|split; [|exact Hexact]]].
  - unfold extract_sgf. rewrite Hzip, extract_loop_app, Hpre.
    cbn [extract_loop]. rewrite Z.add_0_l. fold i. rewrite Hrun.
    reflexivity.
  - destruct Hprefix as [rest Hrest]. unfold sgf_events in Hrest.
    destruct tr as [|ev1 [|ev2 [|ev3 tr]]]; cbn in Hrest;
      try (injection Hrest as Hrest; subst);
      try (injection Hrest as -> ->);
      repeat constructor.
    all: try discriminate.
Qed.

End RenderingRun.

Lemma rendering_run_stops_on_empty_diagram :
  zip [py "\0??<\0??>"] [py "1. black to play"]
  = [] ++ (py "\0??<\0??>", py "1. black to play") :: []
  /\ SimpleSGF.setup_black (tex2sgf (py "\0??<\0??>")) = ∅
  /\ SimpleSGF.setup_white (tex2sgf (py "\0??<\0??>")) = ∅
  /\ problem_writes (fun _ => by_elements) no_open_error (py "out")
       default_filename 0 (py "\0??<\0??>") (py "1. black to play")
  /\ extract_sgf (fun _ => by_elements) no_open_error false (py "out")
       (Some (py "render")) default_filename false
       [py "\0??<\0??>"] [py "1. black to play"]
     = (sgf_events (fun _ => by_elements) (py "out") default_filename 0
          (py "\0??<\0??>") (py "1. black to play"),
        Raise ValueError).
Proof.
  assert (Hb : SimpleSGF.setup_black (tex2sgf (py "\0??<\0??>")) = ∅)
    by (vm_compute; reflexivity).
  assert (Hw : SimpleSGF.setup_white (tex2sgf (py "\0??<\0??>")) = ∅)
    by (vm_compute; reflexivity).
  assert (Hwrites : problem_writes (fun _ => by_elements) no_open_error
                      (py "out") default_filename 0
                      (py "\0??<\0??>") (py "1. black to play")).
  { split; [apply (bool_decide_unpack _); vm_compute; exact I|].
    split; [reflexivity|]. eexists. vm_compute. reflexivity. }
  split; [reflexivity|]. split; [exact Hb|]. split; [exact Hw|].
  split; [exact Hwrites|].
  destruct (rendering_run_stops_without_stones (fun _ => by_elements)
              no_open_error false (py "out") (py "render")
              default_filename [py "\0??<\0??>"] [py "1. black to play"]
              [] [] (py "\0??<\0??>") (py "1. black to play")
              eq_refl Hb Hw [] eq_refl)
    as (tr & e & Hrun & _ & _ & Hexact).
  destruct (Hexact Hwrites) as [-> ->]. exact Hrun.
Defined.
